(** * VeloxMind Studio: the bounded persisted logs and the text corrector

    A shallow embedding of [history_manager.py] (the prompt history store) and
    of the conversation-memory and spell-check slices of
    [promptcraft_studio.py], followed by the properties of them that the
    specification states.

    Conventions of the embedding.
    - A Python [str] is a [string], one [ascii] per character; a Python [int]
      is a [Z]; a Python list is a [list]; a [dict] with string keys is a
      [gmap string _].
    - A method is a computation in the monad [M]: it threads the state (the
      object's attributes and the world: files, clock, console) and either
      returns a value or raises.  A raised exception keeps the mutations made
      before it, as in Python.
    - The fields of a history entry have the types their annotations declare
      ([str]); JSON documents are modelled at the granularity the code reads
      them (a top-level object whose values are strings or lists of flat
      string-valued objects). *)

From Stdlib Require Import ZArith String Ascii List Lia.
From stdpp Require Import base numbers option list sorting gmap strings.

Local Open Scope Z_scope.

(** ** Python sequences: slices and sorting *)

Module Py.

(** The position a slice bound [k] denotes in a sequence of length [len]: a
    negative bound counts from the end, and what still falls outside is
    clamped ([take] and [drop] clamp at the upper end themselves). *)
Definition slice_index (len : nat) (k : Z) : nat :=
  Z.to_nat (if k <? 0 then Z.of_nat len + k else k).

(** [l[:k]] and [l[k:]] on lists. *)
Definition slice_to {A} (l : list A) (k : Z) : list A :=
  take (slice_index (length l) k) l.

Definition slice_from {A} (l : list A) (k : Z) : list A :=
  drop (slice_index (length l) k) l.

(** The same on strings. *)
Fixpoint str_take (n : nat) (s : string) : string :=
  match n, s with
  | S n', String c s' => String c (str_take n' s')
  | _, _ => EmptyString
  end.

Fixpoint str_drop (n : nat) (s : string) : string :=
  match n, s with
  | S n', String _ s' => str_drop n' s'
  | _, _ => s
  end.

Definition str_slice_to (s : string) (k : Z) : string :=
  str_take (slice_index (String.length s) k) s.

Definition str_slice_from (s : string) (k : Z) : string :=
  str_drop (slice_index (String.length s) k) s.

(** [s[i:j]]. *)
Definition str_slice (s : string) (i j : Z) : string :=
  let i' := slice_index (String.length s) i in
  let j' := slice_index (String.length s) j in
  str_take (j' - i') (str_drop i' s).

(** [sub in s] on strings. *)
Fixpoint str_contains (sub s : string) : bool :=
  String.prefix sub s ||
  match s with
  | EmptyString => false
  | String _ s' => str_contains sub s'
  end.

(** [sorted(l, key=key, reverse=True)] and [l.sort(key=key, reverse=True)]:
    the stable sort into descending order of the keys, which compares keys
    with [<] only.  Elements with equal keys keep their order. *)
Section sorting.
Context {A K : Type} (lt : K → K → bool) (key : A → K).

Fixpoint insert_desc (x : A) (l : list A) : list A :=
  match l with
  | [] => [x]
  | y :: l' => if lt (key x) (key y) then y :: insert_desc x l' else x :: l
  end.

Fixpoint sorted_desc (l : list A) : list A :=
  match l with
  | [] => []
  | x :: l' => insert_desc x (sorted_desc l')
  end.
End sorting.

End Py.

(** ** More string methods *)

Module PyStr.

Definition LF : ascii := "010".
Definition CR : ascii := "013".

(** [c.isspace()] for the characters modelled here: the ASCII white space,
    the four separators below it, NEL and the no-break space. *)
Definition is_space (c : ascii) : bool :=
  let n := nat_of_ascii c in
  ((9 <=? n) && (n <=? 13) || (28 <=? n) && (n <=? 32) || (n =? 133) || (n =? 160))%nat.

(** [s.lstrip()], [s.rstrip()] and [s.strip()]. *)
Fixpoint lstrip (s : string) : string :=
  match s with
  | EmptyString => EmptyString
  | String c s' => if is_space c then lstrip s' else s
  end.

Fixpoint rstrip (s : string) : string :=
  match s with
  | EmptyString => EmptyString
  | String c s' =>
      match rstrip s' with
      | EmptyString => if is_space c then EmptyString else String c EmptyString
      | rest => String c rest
      end
  end.

Definition strip (s : string) : string := lstrip (rstrip s).

(** [s.replace(old, new)] for a non-empty [old]: the occurrences of [old]
    are found from the left and do not overlap; [skip] counts the characters
    of an occurrence that are still to be passed over. *)
Fixpoint replace_from (old new : string) (skip : nat) (s : string) : string :=
  match s with
  | EmptyString => EmptyString
  | String c s' =>
      match skip with
      | S skip' => replace_from old new skip' s'
      | O =>
          if String.prefix old s
          then new +:+ replace_from old new (String.length old - 1) s'
          else String c (replace_from old new 0 s')
      end
  end.

Definition replace (old new s : string) : string := replace_from old new 0 s.

(** [s.split(sep)] for a separator of one character, and [sep.join(l)]. *)
Fixpoint split (sep : ascii) (s : string) : list string :=
  match s with
  | EmptyString => [EmptyString]
  | String c s' =>
      if Ascii.eqb c sep then EmptyString :: split sep s'
      else match split sep s' with
           | first :: rest => String c first :: rest
           | [] => [String c EmptyString]
           end
  end.

Fixpoint join (sep : string) (l : list string) : string :=
  match l with
  | [] => EmptyString
  | [x] => x
  | x :: rest => x +:+ sep +:+ join sep rest
  end.

End PyStr.

(** ** The world: files, clock and console *)

(** [datetime] and its [isoformat()]. *)
Record datetime := Datetime {
  year : nat; month : nat; day : nat;
  hour : nat; minute : nat; second : nat; microsecond : nat
}.

Definition digit (n : nat) : ascii := ascii_of_nat (48 + n mod 10).

(** [n] in decimal, zero-padded (or cut) to [width] digits. *)
Fixpoint zero_padded (width n : nat) (acc : string) : string :=
  match width with
  | O => acc
  | S w => zero_padded w (n / 10) (String (digit n) acc)
  end.

Definition isoformat (d : datetime) : string :=
  let fraction :=
    if Nat.eqb (microsecond d) 0 then EmptyString
    else String "." (zero_padded 6 (microsecond d) EmptyString) in
  let seconds := zero_padded 2 (second d) fraction in
  let minutes := zero_padded 2 (minute d) (String ":" seconds) in
  let hours := zero_padded 2 (hour d) (String ":" minutes) in
  let days := zero_padded 2 (day d) (String "T" hours) in
  let months := zero_padded 2 (month d) (String "-" days) in
  zero_padded 4 (year d) (String "-" months).
Arguments isoformat : simpl never.

(** The exceptions the modelled code can meet. *)
Inductive exn := OSError | JSONDecodeError | AttributeError | TypeError.

(** What [json.load] makes of a file, as far as the code looks into it.  The
    values of the objects of a list are strings, as [to_dict] writes them and
    as the fields of an entry are annotated: a file with a number or [null]
    in an object of its history is not among the files of this model. *)
Inductive json :=
  | JStr (s : string)
  | JList (l : list (gmap string string)).

(** A file is a JSON object, or anything else: a file that cannot be read,
    that is not JSON, or whose JSON is not of the shape the code goes through,
    so that reading it raises. *)
Inductive file :=
  | Corrupt (e : exn)
  | Json (doc : gmap string json).

Record World := {
  fs : gmap string file;        (* the files that exist, by path *)
  readonly : gset string;       (* paths that cannot be opened for writing *)
  clock : nat → datetime;       (* the successive readings of the clock *)
  ticks : nat;                  (* how many readings were taken *)
  stdout : list string          (* what was printed *)
}.

(** ** Computations *)

Inductive outcome (A : Type) :=
  | Return (a : A)
  | Raise (e : exn).
Arguments Return {A} a.
Arguments Raise {A} e.

Record state (O : Type) := State { self : O; world : World }.
Arguments State {O} self world.
Arguments self {O} s.
Arguments world {O} s.

Definition M (O A : Type) : Type := state O → outcome A * state O.

Definition ret {O A} (a : A) : M O A := λ s, (Return a, s).

Definition bind {O A B} (m : M O A) (f : A → M O B) : M O B :=
  λ s, match m s with
       | (Return a, s') => f a s'
       | (Raise e, s') => (Raise e, s')
       end.

Definition raise {O A} (e : exn) : M O A := λ s, (Raise e, s).

(** [try: m except Exception as e: h e]. *)
Definition try_except {O A} (m : M O A) (h : exn → M O A) : M O A :=
  λ s, match m s with
       | (Raise e, s') => h e s'
       | r => r
       end.

Declare Scope py_scope.
Delimit Scope py_scope with py.
Notation "x ← y ; z" := (bind y (λ x, z))
  (at level 20, y at level 100, z at level 200, only parsing) : py_scope.
Notation "x ;; z" := (bind x (λ _, z))
  (at level 100, z at level 200, only parsing, right associativity) : py_scope.
Local Open Scope py_scope.

Definition get_self {O} : M O O := λ s, (Return (self s), s).
Definition set_self {O} (o : O) : M O unit := λ s, (Return tt, State o (world s)).
Definition get_world {O} : M O World := λ s, (Return (world s), s).
Definition set_world {O} (w : World) : M O unit := λ s, (Return tt, State (self s) w).

(** The world after one more reading of the clock, after a line is printed,
    and after a file is written. *)
Definition ticked (w : World) : World :=
  {| fs := fs w; readonly := readonly w; clock := clock w;
     ticks := S (ticks w); stdout := stdout w |}.

Definition printed (w : World) (msg : string) : World :=
  {| fs := fs w; readonly := readonly w; clock := clock w;
     ticks := ticks w; stdout := stdout w ++ [msg] |}.

Definition written (w : World) (path : string) (data : gmap string json) : World :=
  {| fs := <[path := Json data]> (fs w); readonly := readonly w; clock := clock w;
     ticks := ticks w; stdout := stdout w |}.

(** [datetime.now().isoformat()]. *)
Definition now_isoformat {O} : M O string :=
  w ← get_world;
  set_world (ticked w);;
  ret (isoformat (clock w (ticks w))).

(** [print(msg)]; the text of the exception that the message ends with is
    left out. *)
Definition print {O} (msg : string) : M O unit :=
  w ← get_world;
  set_world (printed w msg).

(** [os.path.exists(path)]. *)
Definition path_exists {O} (path : string) : M O bool :=
  w ← get_world; ret (bool_decide (is_Some (fs w !! path))).

(** [with open(path, 'r') as f: data = json.load(f)]. *)
Definition json_load {O} (path : string) : M O (gmap string json) :=
  w ← get_world;
  match fs w !! path with
  | None => raise OSError
  | Some (Corrupt e) => raise e
  | Some (Json doc) => ret doc
  end.

(** [with open(path, 'w') as f: json.dump(data, f)], where the file cannot be
    opened for writing, and is left as it was, or the write succeeds.  A
    write that fails after the file was opened, and so cut, is not among the
    cases of this model. *)
Definition json_dump {O} (path : string) (data : gmap string json) : M O unit :=
  w ← get_world;
  if decide (path ∈ readonly w) then raise OSError
  else set_world (written w path data).

(** [[f(x) for x in l]]. *)
Fixpoint mapM {O A B} (f : A → M O B) (l : list A) : M O (list B) :=
  match l with
  | [] => ret []
  | x :: l' => y ← f x; ys ← mapM f l'; ret (y :: ys)
  end.

(** [for x in l: f(x)]. *)
Fixpoint forM_ {O A} (l : list A) (f : A → M O unit) : M O unit :=
  match l with
  | [] => ret tt
  | x :: l' => f x;; forM_ l' f
  end.

(** [for entry in data.get(k, [])], as far as iterating goes: a missing key
    gives the default empty list, a list gives its items, the empty string
    gives nothing, and the characters of any other string are strings, on
    which the loop body's [.get] raises. *)
Definition get_list {O} (data : gmap string json) (k : string)
  : M O (list (gmap string string)) :=
  match data !! k with
  | None => ret []
  | Some (JList l) => ret l
  | Some (JStr s) => if decide (s = EmptyString) then ret [] else raise AttributeError
  end.

(** [x or default] on an optional string: [None] and the empty string are
    falsy, and [default] is evaluated only then. *)
Definition str_or {O} (x : option string) (default : M O string) : M O string :=
  match x with
  | Some s => if decide (s = EmptyString) then default else ret s
  | None => default
  end.

(** The character database behind [str.lower()] and behind the regular
    expression class [\w], which matches letters, digits and the underscore
    of ASCII and the alphanumeric characters beyond it. *)
Class Unicode := {
  lower : string → string;
  alnum_beyond_ascii : ascii → bool
}.

(** The calendar behind [datetime.fromisoformat(s).strftime('%m/%d %H:%M')]:
    the formatted time, or [None] when [fromisoformat] raises. *)
Class Calendar := short_time : string → option string.

(** ** history_manager.py *)

Record PromptHistoryEntry := Entry {
  user_input : string;
  generated_prompt : string;
  template_id : string;
  timestamp : string
}.

Record HistoryManager := Manager {
  history_file : string;
  history : list PromptHistoryEntry;
  max_history : Z
}.

Module PromptHistoryEntry.

Definition default_template_id : string := "context_aware".

(** [__init__]: [self.timestamp = timestamp or datetime.now().isoformat()]. *)
Definition init {O} (user_input generated_prompt template_id : string)
    (timestamp : option string) : M O PromptHistoryEntry :=
  ts ← str_or timestamp now_isoformat;
  ret (Entry user_input generated_prompt template_id ts).

Definition to_dict (e : PromptHistoryEntry) : gmap string string :=
  <["user_input" := user_input e]> (
  <["generated_prompt" := generated_prompt e]> (
  <["template_id" := template_id e]> (
  <["timestamp" := timestamp e]> ∅))).

Definition from_dict {O} (data : gmap string string) : M O PromptHistoryEntry :=
  init (default EmptyString (data !! "user_input"))
       (default EmptyString (data !! "generated_prompt"))
       (default default_template_id (data !! "template_id"))
       (data !! "timestamp").

Definition get_display_text `{Calendar} (e : PromptHistoryEntry) (max_length : Z)
  : string :=
  let text :=
    PyStr.strip (PyStr.replace (String PyStr.LF EmptyString) " " (user_input e)) in
  let text :=
    if Z.of_nat (String.length text) >? max_length
    then Py.str_slice_to text max_length +:+ "..."
    else text in
  let time_str := default "Unknown" (short_time (timestamp e)) in
  "[" +:+ time_str +:+ "] " +:+ text.

End PromptHistoryEntry.

Module HistoryManager.

Definition set_history (h : list PromptHistoryEntry) : M HistoryManager unit :=
  o ← get_self;
  set_self (Manager (history_file o) h (max_history o)).

(** [if len(self.history) > self.max_history:
       self.history = self.history[:self.max_history]]. *)
Definition trim : M HistoryManager unit :=
  o ← get_self;
  if Z.of_nat (length (history o)) >? max_history o
  then set_history (Py.slice_to (history o) (max_history o))
  else ret tt.

Definition save_history : M HistoryManager unit :=
  try_except
    (o ← get_self;
     let data : gmap string json :=
       <["version" := JStr "1.0"]> (
       <["history" := JList (PromptHistoryEntry.to_dict <$> history o)]> ∅) in
     json_dump (history_file o) data)
    (λ e, print "Error saving history").

Definition load_history : M HistoryManager unit :=
  o ← get_self;
  found ← path_exists (history_file o);
  if negb found then ret tt
  else
    try_except
      (data ← json_load (history_file o);
       history_data ← get_list data "history";
       h ← mapM PromptHistoryEntry.from_dict history_data;
       set_history h)
      (λ e, print "Error loading history";; set_history []).

(** [__init__], with the path already resolved. *)
Definition init (history_file : string) : M HistoryManager unit :=
  set_self (Manager history_file [] 100);;
  load_history.

Definition add_entry (user_input generated_prompt template_id : string)
  : M HistoryManager unit :=
  entry ← PromptHistoryEntry.init user_input generated_prompt template_id None;
  o ← get_self;
  set_history (entry :: history o);;
  trim;;
  save_history.

(** [if limit:] holds for an integer other than 0. *)
Definition get_history (limit : option Z) : M HistoryManager (list PromptHistoryEntry) :=
  o ← get_self;
  match limit with
  | Some k => if decide (k ≠ 0) then ret (Py.slice_to (history o) k)
              else ret (history o)
  | None => ret (history o)
  end.

Definition get_entry (index : Z) : M HistoryManager (option PromptHistoryEntry) :=
  o ← get_self;
  if (0 <=? index) && (index <? Z.of_nat (length (history o)))
  then ret (history o !! Z.to_nat index)
  else ret None.

Definition clear_history : M HistoryManager unit :=
  set_history [];;
  save_history.

Definition delete_entry (index : Z) : M HistoryManager unit :=
  o ← get_self;
  if (0 <=? index) && (index <? Z.of_nat (length (history o)))
  then set_history (delete (Z.to_nat index) (history o));; save_history
  else ret tt.

Definition export_history (export_file : string) : M HistoryManager bool :=
  try_except
    (o ← get_self;
     exported_at ← now_isoformat;
     let data : gmap string json :=
       <["version" := JStr "1.0"]> (
       <["exported_at" := JStr exported_at]> (
       <["history" := JList (PromptHistoryEntry.to_dict <$> history o)]> ∅)) in
     json_dump export_file data;;
     ret true)
    (λ e, print "Error exporting history";; ret false).

Definition import_history (import_file : string) (merge : bool) : M HistoryManager bool :=
  try_except
    (data ← json_load import_file;
     raw ← get_list data "history";
     imported_entries ← mapM PromptHistoryEntry.from_dict raw;
     (if merge then
        o ← get_self;
        set_history (history o ++ imported_entries);;
        o ← get_self;
        set_history (Py.sorted_desc String.ltb timestamp (history o));;
        trim
      else
        set_history imported_entries);;
     save_history;;
     ret true)
    (λ e, print "Error importing history";; ret false).

Definition search_history `{Unicode} (query : string)
  : M HistoryManager (list PromptHistoryEntry) :=
  o ← get_self;
  let query_lower := lower query in
  ret (List.filter
         (λ entry, Py.str_contains query_lower (lower (user_input entry))
                   || Py.str_contains query_lower (lower (generated_prompt entry)))
         (history o)).

End HistoryManager.

(** ** promptcraft_studio.py: conversation memory *)

(** The attributes of [AIPromptGenerator] that the conversation memory uses.
    A message is the dict [{'role': role, 'content': content}]. *)
Record AIPromptGenerator := Generator {
  conversation_history : list (gmap string string);
  conversation_file : string;
  max_conversation_turns : Z
}.

Module AIPromptGenerator.

Definition set_conversation_history (h : list (gmap string string))
  : M AIPromptGenerator unit :=
  o ← get_self;
  set_self (Generator h (conversation_file o) (max_conversation_turns o)).

Definition save_conversation : M AIPromptGenerator unit :=
  try_except
    (o ← get_self;
     (if Z.of_nat (length (conversation_history o)) >? max_conversation_turns o * 2
      then set_conversation_history
             (Py.slice_from (conversation_history o) (- (max_conversation_turns o * 2)))
      else ret tt);;
     last_updated ← now_isoformat;
     o ← get_self;
     let data : gmap string json :=
       <["version" := JStr "1.0"]> (
       <["last_updated" := JStr last_updated]> (
       <["messages" := JList (conversation_history o)]> ∅)) in
     json_dump (conversation_file o) data)
    (λ e, print "Error saving conversation").

Definition add_to_conversation (role content : string) : M AIPromptGenerator unit :=
  o ← get_self;
  set_conversation_history
    (conversation_history o ++ [<["role" := role]> (<["content" := content]> ∅)]);;
  save_conversation.

Definition clear_conversation : M AIPromptGenerator unit :=
  set_conversation_history [];;
  save_conversation.

(** *** Spelling errors *)

(** The spell checker the generator holds: [word in checker] and
    [checker.candidates(word)], which gives a set of candidates (here in the
    order the set is iterated) or [None]. *)
Record SpellChecker := {
  contains : string → bool;
  candidates : string → option (list string)
}.

(** An error dict and a correction dict. *)
Record spelling_error := SpellingError {
  word : string;
  err_start : Z;
  err_end : Z;
  suggestions : list string;
  context : string
}.

Record correction := Correction {
  start : Z;
  end_ : Z;
  replacement : string
}.

Definition is_alpha (c : ascii) : bool :=
  let n := nat_of_ascii c in
  ((65 <=? n) && (n <=? 90) || (97 <=? n) && (n <=? 122))%nat.

Definition is_word_char `{Unicode} (c : ascii) : bool :=
  let n := nat_of_ascii c in
  (is_alpha c || (48 <=? n) && (n <=? 57) || (n =? 95)
   || negb (n <? 128) && alnum_beyond_ascii c)%nat.

(** [re.compile(r'\b[a-zA-Z]+\b').finditer(text)], as the spans
    [(match.start(), match.end())] in the order they are found.  A word
    boundary lies between a [\w] character and a character that is not one
    (or an end of the text), and every letter is a [\w] character.  So a match
    is a run of letters that cannot be extended and that has no other [\w]
    character next to it: the scan is outside a run of [\w] characters, inside
    a run that was only letters so far and began at [start], or inside a run
    that holds another [\w] character, where nothing matches. *)
Inductive scanning := Outside | Letters (start : nat) | Blocked.

Fixpoint scan `{Unicode} (st : scanning) (pos : nat) (text : string) : list (nat * nat) :=
  match text with
  | EmptyString =>
      match st with Letters start => [(start, pos)] | _ => [] end
  | String c text' =>
      match st with
      | Outside =>
          scan (if is_alpha c then Letters pos
                else if is_word_char c then Blocked else Outside) (S pos) text'
      | Letters start =>
          if is_alpha c then scan (Letters start) (S pos) text'
          else if is_word_char c then scan Blocked (S pos) text'
          else (start, pos) :: scan Outside (S pos) text'
      | Blocked =>
          scan (if is_word_char c then Blocked else Outside) (S pos) text'
      end
  end.

Definition finditer `{Unicode} (text : string) : list (nat * nat) :=
  scan Outside 0 text.

Definition get_word_context (text : string) (start end_ : Z) : string :=
  let context_start := Z.max 0 (start - 20) in
  let context_end := Z.min (Z.of_nat (String.length text)) (end_ + 20) in
  let context := Py.str_slice text context_start context_end in
  let context := if context_start >? 0 then "..." +:+ context else context in
  if context_end <? Z.of_nat (String.length text) then context +:+ "..." else context.

(** The body of the loop of [find_spelling_errors] for one match: the errors
    it appends. *)
Definition check_match `{Unicode} (spell_checker : SpellChecker) (text : string)
    (m : nat * nat) : list spelling_error :=
  let start_pos := Z.of_nat m.1 in
  let end_pos := Z.of_nat m.2 in
  let word := Py.str_slice text start_pos end_pos in
  if (String.length word <=? 2)%nat then []
  else if contains spell_checker (lower word) then []
  else match candidates spell_checker word with
       | Some ((_ :: _) as suggestions) =>
           [SpellingError word start_pos end_pos (take 5 suggestions)
                          (get_word_context text start_pos end_pos)]
       | _ => []
       end.

Definition find_spelling_errors `{Unicode} (spell_checker : SpellChecker)
    (text : string) : list spelling_error :=
  flat_map (check_match spell_checker text) (finditer text).

(** *** Applying corrections *)

(** [input_content[:start] + replacement + input_content[end:]]. *)
Definition apply_correction (input_content : string) (c : correction) : string :=
  Py.str_slice_to input_content (start c) +:+ replacement c
  +:+ Py.str_slice_from input_content (end_ c).

(** [apply_corrections]: [input_content] is the text read from the input
    widget and the result is the text written back to it. *)
Definition apply_corrections (input_content : string) (corrections : list correction)
  : string :=
  let sorted_corrections := Py.sorted_desc Z.ltb start corrections in
  fold_left apply_correction sorted_corrections input_content.

(** The corrections [auto_spell_check] builds from the errors. *)
Definition auto_corrections (errors : list spelling_error) : list correction :=
  (λ error, Correction (err_start error) (err_end error)
              (default (word error) (head (suggestions error)))) <$> errors.

(** *** The input area *)

(** [self.input_text.get("1.0", tk.END).strip()]: the content of the text
    widget, at whose end Tk adds a line feed, stripped. *)
Definition input_content (input_text : string) : string :=
  PyStr.strip (input_text +:+ String PyStr.LF EmptyString).

(** [apply_corrections] with the input area it works on: it reads the
    content again and puts the corrected text in its place. *)
Definition apply_corrections_on_input (corrections : list correction)
    (input_text : string) : string :=
  apply_corrections (input_content input_text) corrections.

(** [auto_spell_check], as far as the input area goes: what it holds
    afterwards. *)
Definition auto_spell_check `{Unicode} (spell_checker : option SpellChecker)
    (input_text : string) : string :=
  if decide (input_content input_text = EmptyString) then input_text
  else match spell_checker with
       | None => input_text
       | Some checker =>
           match find_spelling_errors checker (input_content input_text) with
           | [] => input_text
           | errors => apply_corrections_on_input (auto_corrections errors) input_text
           end
       end.

(** *** Sanitizing the input *)

Definition blank_lines_3 : string :=
  String PyStr.LF (String PyStr.LF (String PyStr.LF EmptyString)).
Definition blank_lines_2 : string := String PyStr.LF (String PyStr.LF EmptyString).

(** [while '\n\n\n' in text: text = text.replace('\n\n\n', '\n\n')], for at
    most [rounds] rounds. *)
Fixpoint collapse_blank_lines (rounds : nat) (text : string) : string :=
  match rounds with
  | O => text
  | S rounds' =>
      if Py.str_contains blank_lines_3 text
      then collapse_blank_lines rounds' (PyStr.replace blank_lines_3 blank_lines_2 text)
      else text
  end.

(** [validate_and_sanitize_input]; the loop is given as many rounds as the
    text has characters, which it never uses up. *)
Definition validate_and_sanitize_input (text : string) : string :=
  let text := PyStr.strip text in
  let text :=
    PyStr.replace (String PyStr.CR EmptyString) (String PyStr.LF EmptyString)
      (PyStr.replace (String PyStr.CR (String PyStr.LF EmptyString))
                     (String PyStr.LF EmptyString) text) in
  let lines := PyStr.split PyStr.LF text in
  let lines := PyStr.strip <$> lines in
  let text := PyStr.join (String PyStr.LF EmptyString) lines in
  collapse_blank_lines (String.length text) text.

(** *** Generating with the conversation as context *)

Definition build_universal_prompt (user_input : string) : string := user_input.

Definition system_prompt : string :=
  "Transform the user's input into a clear, AI-ready prompt. Follow their input as closely as possible - preserve their exact intent, wording, and all specific details. Make it detailed enough to be actionable but concise. Use context from previous messages. Don't add extra information not requested by the user.".

(** The client the generator holds, by [client_type]: the call that sends
    the messages and reads the text of the response, which gives [None] when
    it raises.  The OpenAI call takes the system prompt as the first message,
    the Anthropic call takes it apart from the messages. *)
Inductive api_client :=
  | OpenAI (create : list (gmap string string) → option string)
  | Anthropic (create : string → list (gmap string string) → option string)
  | NoClient.

(** [{'role': msg['role'], 'content': msg['content']}] for each message of
    the history; [None] when a message lacks one of the keys, where the
    subscript raises. *)
Fixpoint copy_messages (history : list (gmap string string))
  : option (list (gmap string string)) :=
  match history with
  | [] => Some []
  | msg :: history' =>
      match msg !! "role", msg !! "content" with
      | Some role, Some content =>
          match copy_messages history' with
          | Some copied => Some (<["role" := role]> (<["content" := content]> ∅) :: copied)
          | None => None
          end
      | _, _ => None
      end
  end.

(** [generate_ml_prompt]: whatever is raised inside its [try] is caught by
    the one handler, which prints and falls back. *)
Definition generate_ml_prompt (client : api_client) (user_input : string)
  : M AIPromptGenerator string :=
  let fallback : M AIPromptGenerator string :=
    print "API Error";; ret (build_universal_prompt user_input) in
  o ← get_self;
  match copy_messages (conversation_history o) with
  | None => fallback
  | Some copied =>
      let messages :=
        copied ++ [<["role" := "user"]> (<["content" := user_input]> ∅)] in
      let response :=
        match client with
        | OpenAI create =>
            Some (create ([<["role" := "system"]> (<["content" := system_prompt]> ∅)]
                          ++ messages))
        | Anthropic create => Some (create system_prompt messages)
        | NoClient => None
        end in
      match response with
      | None => ret (build_universal_prompt user_input)
      | Some None => fallback
      | Some (Some ai_response) =>
          add_to_conversation "user" user_input;;
          add_to_conversation "assistant" ai_response;;
          ret ai_response
      end
  end.

End AIPromptGenerator.

(** ** promptcraft_studio.py: the spell check dialog *)

(** The dialog: its errors, the corrections applied one by one, the indices
    of the errors that were ignored or applied, and the input area of the
    window, which the callback [apply_corrections] reads and rewrites. *)
Record SpellCheckDialog := Dialog {
  errors : list AIPromptGenerator.spelling_error;
  corrections : list AIPromptGenerator.correction;
  ignored_indices : gset nat;
  input_text : string
}.

Module SpellCheckDialog.
Import AIPromptGenerator.

(** [ignore_single]. *)
Definition ignore_single (idx : nat) (d : SpellCheckDialog) : SpellCheckDialog :=
  Dialog (errors d) (corrections d) ({[idx]} ∪ ignored_indices d) (input_text d).

(** [apply_single]: the correction is applied at once, through the callback,
    and the index joins the ignored ones. *)
Definition apply_single (idx : nat) (error : spelling_error) (replacement : string)
    (d : SpellCheckDialog) : SpellCheckDialog :=
  if decide (idx ∉ ignored_indices d) then
    let made := Correction (err_start error) (err_end error) replacement in
    Dialog (errors d) (corrections d ++ [made]) ({[idx]} ∪ ignored_indices d)
           (apply_corrections_on_input [made] (input_text d))
  else d.

(** The list [apply_all] hands to [apply_corrections]: for each error whose
    index was not ignored and that has suggestions, the first suggestion at
    the error's span; [idx] is the index of the first error of [errors]. *)
Fixpoint corrections_to_apply (idx : nat) (errors : list spelling_error)
    (ignored_indices : gset nat) : list correction :=
  match errors with
  | [] => []
  | error :: errors' =>
      (if decide (idx ∉ ignored_indices)
       then match suggestions error with
            | first :: _ => [Correction (err_start error) (err_end error) first]
            | [] => []
            end
       else [])
      ++ corrections_to_apply (S idx) errors' ignored_indices
  end.

Definition apply_all (d : SpellCheckDialog) : SpellCheckDialog :=
  match corrections_to_apply 0 (errors d) (ignored_indices d) with
  | [] => d
  | to_apply =>
      Dialog (errors d) (corrections d) (ignored_indices d)
             (apply_corrections_on_input to_apply (input_text d))
  end.

(** [spell_check_prompt] of the window: the dialog it opens, if any. *)
Definition spell_check_prompt `{Unicode} (spell_checker : option SpellChecker)
    (input_text : string) : option SpellCheckDialog :=
  if decide (input_content input_text = EmptyString) then None
  else match spell_checker with
       | None => None
       | Some checker =>
           match find_spelling_errors checker (input_content input_text) with
           | [] => None
           | errors => Some (Dialog errors [] ∅ input_text)
           end
       end.

End SpellCheckDialog.

(** An instance of the character database for ASCII text: nothing beyond
    ASCII has a case or is alphanumeric. *)
Definition ascii_lower (c : ascii) : ascii :=
  let n := nat_of_ascii c in
  if ((65 <=? n) && (n <=? 90))%nat then ascii_of_nat (n + 32) else c.

Fixpoint string_map (f : ascii → ascii) (s : string) : string :=
  match s with
  | EmptyString => EmptyString
  | String c s' => String (f c) (string_map f s')
  end.

Definition ascii_only : Unicode :=
  {| lower := string_map ascii_lower; alnum_beyond_ascii := λ _, false |}.

(** * Properties *)

(** ** Strings and slices *)

Module PyFacts.
Import Py.
#[local] Arguments String.append !_ _ / : simpl nomatch.

Lemma app_nil_r (s : string) : s +:+ EmptyString = s.
Proof. induction s as [|c s IH]; cbn; [done | by rewrite IH]. Qed.

Lemma app_assoc (s1 s2 s3 : string) : (s1 +:+ s2) +:+ s3 = s1 +:+ (s2 +:+ s3).
Proof. induction s1 as [|c s1 IH]; cbn; [done | by rewrite IH]. Qed.

Lemma length_str_take (n : nat) (s : string) :
  String.length (str_take n s) = Nat.min n (String.length s).
Proof.
  revert s; induction n as [|n IH]; intros [|c s]; cbn; try done.
  by rewrite IH.
Qed.

Lemma str_take_all (n : nat) (s : string) :
  (String.length s ≤ n)%nat → str_take n s = s.
Proof.
  revert s; induction n as [|n IH]; intros [|c s]; cbn; intros Hn; try done.
  - lia.
  - rewrite IH; [done | lia].
Qed.

Lemma str_take_app_le (n : nat) (s1 s2 : string) :
  (n ≤ String.length s1)%nat → str_take n (s1 +:+ s2) = str_take n s1.
Proof.
  revert s1; induction n as [|n IH]; intros [|c s1]; cbn; intros Hn.
  - by destruct s2.
  - done.
  - lia.
  - rewrite IH; [done | lia].
Qed.

Lemma str_drop_app_le (n : nat) (s1 s2 : string) :
  (n ≤ String.length s1)%nat → str_drop n (s1 +:+ s2) = str_drop n s1 +:+ s2.
Proof.
  revert s1; induction n as [|n IH]; intros [|c s1]; cbn; intros Hn; try done.
  - lia.
  - apply IH; lia.
Qed.

Lemma str_take_take (n m : nat) (s : string) :
  (n ≤ m)%nat → str_take n (str_take m s) = str_take n s.
Proof.
  revert m s; induction n as [|n IH]; intros [|m] [|c s] Hn; cbn; try done.
  - lia.
  - rewrite IH; [done | lia].
Qed.

Lemma str_drop_take (i j : nat) (s : string) :
  str_drop i (str_take j s) = str_take (j - i) (str_drop i s).
Proof.
  revert j s; induction i as [|i IH]; intros j s.
  - cbn. by rewrite Nat.sub_0_r.
  - destruct j as [|j], s as [|c s]; cbn; try done.
    by destruct (j - i)%nat.
Qed.

Lemma str_take_drop_app (i j : nat) (s : string) :
  (i ≤ j)%nat → str_take i s +:+ str_take (j - i) (str_drop i s) = str_take j s.
Proof.
  revert j s; induction i as [|i IH]; intros j s Hij; cbn.
  - by rewrite Nat.sub_0_r.
  - destruct j as [|j]; [lia|].
    destruct s as [|c s]; cbn; [by destruct (j - i)%nat|].
    rewrite IH; [done | lia].
Qed.

(** A bound that is not negative denotes itself. *)
Lemma slice_index_nonneg (len : nat) (k : Z) : 0 ≤ k → slice_index len k = Z.to_nat k.
Proof. intros Hk. unfold slice_index. by rewrite (proj2 (Z.ltb_ge k 0)). Qed.

Lemma slice_index_neg (len : nat) (k : Z) :
  k < 0 → slice_index len k = Z.to_nat (Z.of_nat len + k).
Proof. intros Hk. unfold slice_index. by rewrite (proj2 (Z.ltb_lt k 0)). Qed.

(** [sub in s] holds exactly when [s] is [sub] with something around it. *)
Lemma prefix_app (sub s : string) :
  String.prefix sub s = true ↔ ∃ v, s = sub +:+ v.
Proof.
  revert s; induction sub as [|c sub IH]; intros s; cbn.
  - split; [intros _; by exists s | by destruct s].
  - destruct s as [|c' s]; [split; [done | by intros [v ?]]|].
    cbn. destruct (ascii_dec c c') as [->|Hne].
    + rewrite IH. split; intros [v Hv]; exists v; cbn in *; congruence.
    + split; [done | intros [v Hv]; cbn in Hv; congruence].
Qed.

Lemma str_contains_spec (sub s : string) :
  str_contains sub s = true ↔ ∃ u v, s = u +:+ sub +:+ v.
Proof.
  induction s as [|c s IH]; cbn [str_contains]; rewrite orb_true_iff, prefix_app.
  - split.
    + intros [[v Hv]|?]; [|done]. by exists EmptyString, v.
    + intros (u & v & Huv). left. exists v.
      destruct u; cbn in Huv; [done | discriminate].
  - rewrite IH. split.
    + intros [[v Hv]|(u & v & Huv)]; [by exists EmptyString, v|].
      exists (String c u), v. cbn. by rewrite Huv.
    + intros (u & v & Huv). destruct u as [|c' u]; cbn in Huv.
      * left. by exists v.
      * right. exists u, v. congruence.
Qed.

(** ** The stable descending sort *)

Section sorting.
Context {A K : Type} (lt : K → K → bool) (key : A → K).

Lemma insert_desc_perm (x : A) (l : list A) : insert_desc lt key x l ≡ₚ x :: l.
Proof.
  induction l as [|y l IH]; cbn; [done|].
  destruct (lt (key x) (key y)); [|done].
  rewrite IH. apply Permutation_swap.
Qed.

Lemma sorted_desc_perm (l : list A) : sorted_desc lt key l ≡ₚ l.
Proof.
  induction l as [|x l IH]; cbn; [done|].
  by rewrite insert_desc_perm, IH.
Qed.

Lemma length_sorted_desc (l : list A) : length (sorted_desc lt key l) = length l.
Proof. apply Permutation_length, sorted_desc_perm. Qed.

(** No element of the result is smaller than its successor. *)
Definition not_below (x y : A) : Prop := lt (key x) (key y) = false.

Hypothesis lt_asym : ∀ a b, lt a b = true → lt b a = false.

Lemma insert_desc_sorted (x : A) (l : list A) :
  Sorted not_below l → Sorted not_below (insert_desc lt key x l).
Proof.
  induction 1 as [|y l Hl IH Hy]; cbn; [by repeat constructor|].
  destruct (lt (key x) (key y)) eqn:Hxy.
  - constructor; [done|].
    destruct Hy as [|z l Hyz]; cbn.
    + constructor. by apply lt_asym.
    + destruct (lt (key x) (key z)); constructor; [done|]. by apply lt_asym.
  - by repeat constructor.
Qed.

Lemma sorted_desc_sorted (l : list A) : Sorted not_below (sorted_desc lt key l).
Proof.
  induction l as [|x l IH]; cbn; [constructor|]. by apply insert_desc_sorted.
Qed.

(** Sorting what is in order already changes nothing (the sort is stable). *)
Lemma sorted_desc_id (l : list A) : Sorted not_below l → sorted_desc lt key l = l.
Proof.
  induction 1 as [|x l Hl IH Hx]; cbn; [done|]. rewrite IH.
  destruct Hx as [|y l Hxy]; cbn; [done|]. by rewrite Hxy.
Qed.
End sorting.

Lemma Sorted_weaken {A} (R R' : relation A) (l : list A) :
  (∀ x y, R x y → R' x y) → Sorted R l → Sorted R' l.
Proof.
  intros HR. induction 1 as [|x l Hl IH Hx]; constructor; [done|].
  destruct Hx; constructor; auto.
Qed.

Lemma string_ltb_asym (a b : string) : String.ltb a b = true → String.ltb b a = false.
Proof.
  unfold String.ltb. rewrite (String.compare_antisym b a).
  by destruct (String.compare a b).
Qed.

Lemma string_ltb_false_le (a b : string) : String.ltb a b = false → (b ≤ a)%string.
Proof.
  unfold String.le, String.leb, String.ltb. rewrite (String.compare_antisym b a).
  by destruct (String.compare a b).
Qed.

(** Equal keys keep their order, as with [reverse=True] in Python. *)
Example sorted_desc_stable :
  sorted_desc Z.ltb fst [(1, "a"); (2, "b"); (1, "c"); (2, "d")]
  = [(2, "b"); (2, "d"); (1, "a"); (1, "c")].
Proof. reflexivity. Qed.

End PyFacts.

(** ** Running the methods *)

(** Unfold the monad and project the records that result. *)
Ltac run :=
  repeat (unfold bind, ret, raise, try_except, get_self, set_self, get_world,
            set_world, now_isoformat, print, path_exists, json_load, json_dump;
          cbn [self world fst snd negb history_file history max_history
               conversation_history conversation_file max_conversation_turns
               fs readonly clock ticks stdout ticked printed written]).

Module HistoryFacts.
Import HistoryManager.

(** What [save_history] writes, and the world it leaves: the file rewritten,
    or the error printed when the file cannot be opened for writing. *)
Definition history_doc (h : list PromptHistoryEntry) : gmap string json :=
  <["version" := JStr "1.0"]> (
  <["history" := JList (PromptHistoryEntry.to_dict <$> h)]> ∅).

Definition saved (o : HistoryManager) (w : World) : World :=
  if decide (history_file o ∈ readonly w) then printed w "Error saving history"
  else written w (history_file o) (history_doc (history o)).

(** The list [trim] leaves. *)
Definition trimmed (h : list PromptHistoryEntry) (max : Z) : list PromptHistoryEntry :=
  if Z.of_nat (length h) >? max then Py.slice_to h max else h.

Lemma save_history_run (o : HistoryManager) (w : World) :
  save_history (State o w) = (Return tt, State o (saved o w)).
Proof. unfold save_history, saved. run. by case_decide. Qed.

Lemma trim_run (o : HistoryManager) (w : World) :
  trim (State o w)
  = (Return tt,
     State (Manager (history_file o) (trimmed (history o) (max_history o))
                    (max_history o)) w).
Proof.
  unfold trim, trimmed, set_history. run.
  destruct (_ >? _); run; [done | by destruct o].
Qed.

Lemma length_slice_to {A} (l : list A) (k : Z) :
  0 ≤ k → Z.of_nat (length (Py.slice_to l k)) = Z.min (Z.of_nat (length l)) k.
Proof.
  intros Hk. unfold Py.slice_to.
  rewrite PyFacts.slice_index_nonneg, length_take by done. lia.
Qed.

Lemma length_trimmed (h : list PromptHistoryEntry) (max : Z) :
  0 ≤ max → Z.of_nat (length (trimmed h max)) = Z.min (Z.of_nat (length h)) max.
Proof.
  intros Hmax. unfold trimmed. destruct (_ >? _) eqn:Hlen.
  - by apply length_slice_to.
  - lia.
Qed.

Lemma trimmed_cons (e : PromptHistoryEntry) (h : list PromptHistoryEntry) (max : Z) :
  0 < max → ∃ h', trimmed (e :: h) max = e :: h'.
Proof.
  intros Hmax. unfold trimmed, Py.slice_to. destruct (_ >? _); [|by eexists].
  rewrite PyFacts.slice_index_nonneg by lia.
  destruct (Z.to_nat max) as [|n] eqn:Hn; [lia|]. by eexists.
Qed.

Lemma entry_init_now {O} (ui gp tid : string) (o : O) (w : World) :
  PromptHistoryEntry.init ui gp tid None (State o w)
  = (Return (Entry ui gp tid (isoformat (clock w (ticks w)))), State o (ticked w)).
Proof. done. Qed.

Lemma add_entry_run (ui gp tid : string) (o : HistoryManager) (w : World) :
  let entry := Entry ui gp tid (isoformat (clock w (ticks w))) in
  let o' := Manager (history_file o) (trimmed (entry :: history o) (max_history o))
                    (max_history o) in
  add_entry ui gp tid (State o w) = (Return tt, State o' (saved o' (ticked w))).
Proof.
  intros entry o'. unfold add_entry.
  unfold bind at 1. rewrite entry_init_now.
  unfold set_history. run. rewrite trim_run. run. by rewrite save_history_run.
Qed.

(** C10: when the history file exists and reading or parsing it raises,
    [load_history] returns normally, having printed the error, and the history
    in memory is the empty list. *)
Theorem load_history_corrupt (o : HistoryManager) (w : World) (e : exn) :
  fs w !! history_file o = Some (Corrupt e) →
  load_history (State o w)
  = (Return tt, State (Manager (history_file o) [] (max_history o))
                      (printed w "Error loading history")).
Proof.
  intros Hfile. unfold load_history, set_history. run.
  rewrite bool_decide_true by eauto. run. by rewrite Hfile.
Qed.

Definition corrupt_world : World :=
  {| fs := {["history.json" := Corrupt JSONDecodeError]};
     readonly := ∅; clock := λ _, Datetime 2024 1 1 0 0 0 0; ticks := 0;
     stdout := [] |}.

Lemma load_history_corrupt_witness :
  let o := Manager "history.json"
             [Entry "draft" "You are a poet" "context_aware" "2024-05-01T10:00:00"]
             100 in
  load_history (State o corrupt_world)
  = (Return tt, State (Manager "history.json" [] 100)
                      (printed corrupt_world "Error loading history")).
Proof.
  intros o. apply (load_history_corrupt o corrupt_world JSONDecodeError).
  reflexivity.
Defined.

(** *** Entries and their dicts *)

(** The constructor never leaves the timestamp empty. *)
Definition stamped (e : PromptHistoryEntry) : Prop := timestamp e ≠ EmptyString.

Lemma isoformat_nonempty (d : datetime) : isoformat d ≠ EmptyString.
Proof. done. Qed.

Lemma from_dict_to_dict {O} (e : PromptHistoryEntry) (st : state O) :
  stamped e →
  PromptHistoryEntry.from_dict (PromptHistoryEntry.to_dict e) st = (Return e, st).
Proof.
  intros He. unfold PromptHistoryEntry.from_dict, PromptHistoryEntry.to_dict.
  simplify_map_eq. unfold PromptHistoryEntry.init, str_or.
  rewrite decide_False by done. by destruct e.
Qed.

Lemma mapM_from_dict_to_dict {O} (h : list PromptHistoryEntry) (st : state O) :
  Forall stamped h →
  mapM PromptHistoryEntry.from_dict (PromptHistoryEntry.to_dict <$> h) st
  = (Return h, st).
Proof.
  induction 1 as [|e h He Hh IH]; [done|].
  cbn [fmap list_fmap mapM]. unfold bind at 1. rewrite from_dict_to_dict by done.
  unfold bind at 1. by rewrite IH.
Qed.

(** C6: when the history file can be written, saving the store returns
    normally, and loading from that file afterwards, into a manager that
    holds any other entries in memory, returns normally and gives the
    sequence of entries that was saved, field by field and in the same order;
    the entries are those the constructor builds, whose timestamp is never
    empty. *)
Theorem save_load_roundtrip (o : HistoryManager) (w : World)
    (stale : list PromptHistoryEntry) :
  history_file o ∉ readonly w →
  Forall stamped (history o) →
  ∃ w',
    save_history (State o w) = (Return tt, State o w')
    ∧ load_history (State (Manager (history_file o) stale (max_history o)) w')
      = (Return tt, State o w').
Proof.
  intros Hw Hh. rewrite save_history_run. eexists. split; [done|].
  unfold saved. rewrite decide_False by done.
  unfold load_history, set_history. run.
  rewrite lookup_insert_eq, bool_decide_true by eauto. run.
  unfold get_list, history_doc. simplify_map_eq. run.
  rewrite mapM_from_dict_to_dict by done. by destruct o.
Qed.

Definition empty_world : World :=
  {| fs := ∅; readonly := ∅; clock := λ n, Datetime 2024 1 1 0 0 n 0; ticks := 0;
     stdout := [] |}.

Lemma save_load_roundtrip_witness :
  let o := Manager "history.json"
             [Entry "fix the login page" "You are a web developer" "context_aware"
                    "2024-05-01T10:00:00"] 100 in
  ∃ w',
    save_history (State o empty_world) = (Return tt, State o w')
    ∧ load_history (State (Manager "history.json" [] 100) w') = (Return tt, State o w').
Proof.
  intros o. apply (save_load_roundtrip o empty_world []).
  - cbn. set_solver.
  - repeat constructor. done.
Defined.

(** *** Sequences of [add_entry] calls *)

(** One call: the three arguments of [add_entry]. *)
Definition add_call (c : string * string * string) : M HistoryManager unit :=
  add_entry c.1.1 c.1.2 c.2.

Lemma saved_ticks (o : HistoryManager) (w : World) : ticks (saved o w) = ticks w.
Proof. unfold saved. by case_decide. Qed.

Lemma saved_clock (o : HistoryManager) (w : World) : clock (saved o w) = clock w.
Proof. unfold saved. by case_decide. Qed.

Lemma forM_app {O A} (l1 l2 : list A) (f : A → M O unit) (st : state O) :
  forM_ (l1 ++ l2) f st = (forM_ l1 f;; forM_ l2 f) st.
Proof.
  revert st. induction l1 as [|x l1 IH]; intros st; cbn [app forM_].
  - done.
  - unfold bind. destruct (f x st) as [[[]|e] st1]; [|done]. by rewrite IH.
Qed.

(** Any sequence of calls returns normally; it leaves the file name and the
    bound alone, reads the clock once per call, and fills the store up to the
    bound. *)
Lemma add_calls_run (calls : list (string * string * string))
    (o : HistoryManager) (w : World) :
  ∃ h' w',
    forM_ calls add_call (State o w)
    = (Return tt, State (Manager (history_file o) h' (max_history o)) w')
    ∧ ticks w' = (ticks w + length calls)%nat
    ∧ clock w' = clock w
    ∧ (0 ≤ max_history o →
       Z.of_nat (length (history o)) ≤ max_history o →
       Z.of_nat (length h')
       = Z.min (Z.of_nat (length (history o)) + Z.of_nat (length calls)) (max_history o)).
Proof.
  revert o w. induction calls as [|c calls IH]; intros o w.
  - exists (history o), w. destruct o. cbn. repeat split; try done; lia.
  - cbn [forM_]. unfold bind, add_call at 1. rewrite add_entry_run.
    match goal with |- context [State ?o1 ?w1] =>
      destruct (IH o1 w1) as (h' & w' & -> & Ht & Hc & Hlen) end.
    exists h', w'. rewrite saved_ticks in Ht. rewrite saved_clock in Hc. cbn in *.
    repeat split; try done; [lia|].
    intros Hmax Hh. rewrite Hlen by (rewrite ?length_trimmed; cbn; lia).
    rewrite length_trimmed by done. cbn [length]. lia.
Qed.

(** C5: [n] calls of [add_entry] on an empty store whose bound is not negative
    return normally and leave [min(n, max_history)] entries; when the bound is
    positive, the entry of the last call, stamped with the reading of the
    clock that call took, is at index 0. *)
Theorem add_calls_length_and_head (file : string) (max : Z) (w : World)
    (calls : list (string * string * string)) :
  0 ≤ max →
  ∃ st',
    forM_ calls add_call (State (Manager file [] max) w) = (Return tt, st')
    ∧ Z.of_nat (length (history (self st'))) = Z.min (Z.of_nat (length calls)) max
    ∧ (0 < max → ∀ before ui gp tid,
         calls = before ++ [(ui, gp, tid)] →
         history (self st') !! 0%nat
         = Some (Entry ui gp tid
                   (isoformat (clock w (ticks w + length before)%nat)))).
Proof.
  intros Hmax.
  destruct (add_calls_run calls (Manager file [] max) w)
    as (h' & w' & Hrun & _ & _ & Hlen).
  eexists. split; [exact Hrun|]. cbn in *. split; [rewrite Hlen; lia|].
  intros Hpos before ui gp tid ->. revert Hrun. rewrite forM_app.
  destruct (add_calls_run before (Manager file [] max) w)
    as (h1 & w1 & Hrun1 & Ht & Hc & _).
  unfold bind at 1. rewrite Hrun1. cbn [forM_]. unfold bind, add_call.
  rewrite add_entry_run. unfold ret. cbn. intros [= <- _].
  destruct (trimmed_cons (Entry ui gp tid (isoformat (clock w1 (ticks w1)))) h1 max Hpos)
    as [h2 ->].
  cbn. by rewrite Hc, Ht.
Qed.

Lemma add_calls_length_and_head_witness :
  ∃ st',
    forM_ [("a", "A", "context_aware"); ("b", "B", "context_aware")] add_call
      (State (Manager "history.json" [] 100) empty_world) = (Return tt, st')
    ∧ Z.of_nat (length (history (self st')))
      = Z.min (Z.of_nat (length [("a", "A", "context_aware"); ("b", "B", "context_aware")])) 100
    ∧ (0 < 100 → ∀ before ui gp tid,
         [("a", "A", "context_aware"); ("b", "B", "context_aware")]
         = before ++ [(ui, gp, tid)] →
         history (self st') !! 0%nat
         = Some (Entry ui gp tid
                   (isoformat (clock empty_world (ticks empty_world + length before)%nat)))).
Proof.
  apply (add_calls_length_and_head "history.json" 100 empty_world
           [("a", "A", "context_aware"); ("b", "B", "context_aware")]).
  lia.
Defined.

(** *** Reading the store *)

(** What [get_history] returns, by the limit: everything without a limit and
    for the limit 0, the first [k] entries for a positive [k], and all but the
    last [-k] entries for a negative [k]. *)
Definition limited (h : list PromptHistoryEntry) (limit : option Z)
  : list PromptHistoryEntry :=
  match limit with
  | None => h
  | Some k =>
      if decide (k = 0) then h
      else if decide (0 < k) then take (Z.to_nat k) h
      else take (length h - Z.to_nat (- k)) h
  end.

(** C7, as the code has it: [get_history] returns normally and leaves the
    store and the world as they were; it returns the first [limit] entries for
    a positive limit, the whole store when there is no limit or the limit is
    0, and all but the last [-limit] entries for a negative limit. *)
Theorem get_history_limited (o : HistoryManager) (w : World) (limit : option Z) :
  get_history limit (State o w) = (Return (limited (history o) limit), State o w).
Proof.
  unfold get_history, limited. run. destruct limit as [k|]; [|done].
  destruct (decide (k = 0)) as [->|Hk]; [done|].
  rewrite decide_True by done. unfold ret, Py.slice_to. repeat f_equal.
  case_decide.
  - by rewrite PyFacts.slice_index_nonneg by lia.
  - rewrite PyFacts.slice_index_neg by lia. f_equal. lia.
Qed.

Definition two_entries : state HistoryManager :=
  State (Manager "history.json"
           [Entry "second" "B" "context_aware" "2024-05-02T10:00:00";
            Entry "first" "A" "context_aware" "2024-05-01T10:00:00"] 100)
        empty_world.

(** With the limit 0 the whole store comes back, not its first 0 entries. *)
Lemma get_history_limit_zero :
  get_history (Some 0) two_entries
  ≠ (Return (take (Z.to_nat 0) (history (self two_entries))), two_entries).
Proof. discriminate. Qed.

Lemma filter_sublist {A} (f : A → bool) (l : list A) : List.filter f l `sublist_of` l.
Proof.
  induction l as [|x l IH]; cbn; [done|]. destruct (f x); by constructor.
Qed.

(** C8: [search_history] returns normally and changes neither the store nor
    the world; what it returns is a sublist of the store, in the store's
    order, and holds exactly the entries in which the lowered query occurs in
    the lowered user input or in the lowered generated prompt. *)
Theorem search_history_sound `{Unicode} (o : HistoryManager) (w : World) (query : string) :
  ∃ found,
    search_history query (State o w) = (Return found, State o w)
    ∧ found `sublist_of` history o
    ∧ ∀ entry, entry ∈ found ↔
        entry ∈ history o
        ∧ ((∃ u v, lower (user_input entry) = u +:+ lower query +:+ v)
           ∨ (∃ u v, lower (generated_prompt entry) = u +:+ lower query +:+ v)).
Proof.
  eexists. split; [reflexivity|]. split.
  - apply filter_sublist.
  - intros entry. rewrite !list_elem_of_In, filter_In, orb_true_iff.
    by rewrite !PyFacts.str_contains_spec.
Qed.

(** *** Importing *)

(** The entries a list of dicts is read into when the clock stands at reading
    [t]: a dict without a usable timestamp takes the next reading. *)
Definition keeps_timestamp (d : gmap string string) : bool :=
  match d !! "timestamp" with
  | Some s => bool_decide (s ≠ EmptyString)
  | None => false
  end.

Definition entry_of (d : gmap string string) (now : string) : PromptHistoryEntry :=
  Entry (default EmptyString (d !! "user_input"))
        (default EmptyString (d !! "generated_prompt"))
        (default PromptHistoryEntry.default_template_id (d !! "template_id"))
        (if keeps_timestamp d then default EmptyString (d !! "timestamp") else now).

Fixpoint entries_of (raw : list (gmap string string)) (clock : nat → datetime) (t : nat)
  : list PromptHistoryEntry :=
  match raw with
  | [] => []
  | d :: raw' =>
      entry_of d (isoformat (clock t))
      :: entries_of raw' clock (if keeps_timestamp d then t else S t)
  end.

Fixpoint ticks_after (raw : list (gmap string string)) (t : nat) : nat :=
  match raw with
  | [] => t
  | d :: raw' => ticks_after raw' (if keeps_timestamp d then t else S t)
  end.

Definition at_tick (w : World) (t : nat) : World :=
  {| fs := fs w; readonly := readonly w; clock := clock w; ticks := t;
     stdout := stdout w |}.

Lemma at_tick_same (w : World) : at_tick w (ticks w) = w.
Proof. by destruct w. Qed.

Lemma from_dict_run {O} (d : gmap string string) (o : O) (w : World) :
  PromptHistoryEntry.from_dict d (State o w)
  = (Return (entry_of d (isoformat (clock w (ticks w)))),
     State o (at_tick w (if keeps_timestamp d then ticks w else S (ticks w)))).
Proof.
  unfold PromptHistoryEntry.from_dict, PromptHistoryEntry.init, entry_of,
    keeps_timestamp, str_or.
  destruct (d !! "timestamp") as [s|]; [|done].
  destruct (decide (s = EmptyString)) as [->|Hs].
  - done.
  - rewrite bool_decide_true by done. run. by rewrite at_tick_same.
Qed.

Lemma mapM_from_dict_run {O} (raw : list (gmap string string)) (o : O) (w : World) :
  mapM PromptHistoryEntry.from_dict raw (State o w)
  = (Return (entries_of raw (clock w) (ticks w)),
     State o (at_tick w (ticks_after raw (ticks w)))).
Proof.
  revert w. induction raw as [|d raw IH]; intros w; cbn [mapM entries_of ticks_after].
  - unfold ret. by rewrite at_tick_same.
  - unfold bind at 1. rewrite from_dict_run. unfold bind at 1. by rewrite IH.
Qed.

Lemma length_entries_of raw clock t : length (entries_of raw clock t) = length raw.
Proof. revert t. induction raw as [|d raw IH]; intros t; cbn; [done | by rewrite IH]. Qed.

Lemma entries_of_stamped raw clock t : Forall stamped (entries_of raw clock t).
Proof.
  revert t. induction raw as [|d raw IH]; intros t; cbn; constructor; [|done].
  unfold stamped, entry_of, keeps_timestamp. cbn.
  destruct (d !! "timestamp") as [s|]; cbn; [|apply isoformat_nonempty].
  case_bool_decide; [done | apply isoformat_nonempty].
Qed.

(** What reading the history of a file gives: its dicts, or the exception
    raised on the way. *)
Definition file_history (w : World) (file : string)
  : outcome (list (gmap string string)) :=
  match fs w !! file with
  | None => Raise OSError
  | Some (Corrupt e) => Raise e
  | Some (Json doc) =>
      match doc !! "history" with
      | None => Return []
      | Some (JList raw) => Return raw
      | Some (JStr s) => if decide (s = EmptyString) then Return [] else Raise AttributeError
      end
  end.

Lemma file_history_run {O} (w : World) (file : string) (o : O) :
  (data ← json_load file; get_list data "history") (State o w)
  = (file_history w file, State o w).
Proof.
  unfold file_history, get_list. run.
  destruct (fs w !! file) as [[e|doc]|]; [done| |done].
  destruct (doc !! "history") as [[s|raw]|]; [|done..]. by case_decide.
Qed.

(** A file that [import_history] can read, and the dicts of its history:
    objects whose values are strings (none when the file has no history or
    the empty string in its place). *)
Definition readable (w : World) (file : string) (raw : list (gmap string string)) : Prop :=
  file_history w file = Return raw.

(** The store an import leaves. *)
Definition imported (o : HistoryManager) (entries : list PromptHistoryEntry)
    (merge : bool) : HistoryManager :=
  Manager (history_file o)
          (if merge
           then trimmed (Py.sorted_desc String.ltb timestamp (history o ++ entries))
                        (max_history o)
           else entries)
          (max_history o).

Lemma import_history_run (o : HistoryManager) (w : World) (file : string)
    (merge : bool) :
  import_history file merge (State o w)
  = match file_history w file with
    | Return raw =>
        let o' := imported o (entries_of raw (clock w) (ticks w)) merge in
        (Return true, State o' (saved o' (at_tick w (ticks_after raw (ticks w)))))
    | Raise _ => (Return false, State o (printed w "Error importing history"))
    end.
Proof.
  unfold import_history, try_except.
  pose proof (file_history_run w file o) as Hload. unfold bind at 1 in Hload.
  unfold bind at 1 2.
  destruct (json_load file (State o w)) as [[data|e] st1].
  - rewrite Hload. destruct (file_history w file) as [raw|e]; [|done].
    unfold bind at 1. rewrite mapM_from_dict_run.
    destruct merge; unfold set_history; run.
    + rewrite trim_run. run. by rewrite save_history_run.
    + by rewrite save_history_run.
  - injection Hload as <- ->. done.
Qed.

Lemma import_readable_run (o : HistoryManager) (w : World) (file : string) raw
    (merge : bool) :
  readable w file raw →
  let o' := imported o (entries_of raw (clock w) (ticks w)) merge in
  import_history file merge (State o w)
  = (Return true, State o' (saved o' (at_tick w (ticks_after raw (ticks w))))).
Proof. intros Hfile. rewrite import_history_run. by rewrite Hfile. Qed.

(** [trim] keeps a prefix. *)
Lemma trimmed_prefix (h : list PromptHistoryEntry) (max : Z) :
  ∃ dropped, trimmed h max ++ dropped = h.
Proof.
  unfold trimmed, Py.slice_to. destruct (_ >? _).
  - eexists. apply take_drop.
  - exists []. apply List.app_nil_r.
Qed.

(** Newest first: no entry is followed, anywhere later, by one with a greater
    timestamp. *)
Definition newest_first : list PromptHistoryEntry → Prop :=
  StronglySorted (λ a b, (timestamp b ≤ timestamp a)%string).

Lemma sorted_desc_newest_first (h : list PromptHistoryEntry) :
  newest_first (Py.sorted_desc String.ltb timestamp h).
Proof.
  apply Sorted_StronglySorted.
  - intros a b c Hab Hbc. by etrans.
  - eapply PyFacts.Sorted_weaken;
      [|apply PyFacts.sorted_desc_sorted, PyFacts.string_ltb_asym].
    intros a b. apply PyFacts.string_ltb_false_le.
Qed.

(** X1: when the import file reads as a list [raw] of objects whose values
    are strings, importing it with [merge=True] returns [True] and leaves the
    store sorted newest first, the timestamps compared as strings, within a
    bound that is not negative, and made of entries of the store before and
    of the file only, each at most as often as it occurs there. *)
Theorem import_merge_sorted (o : HistoryManager) (w : World) (file : string) raw :
  readable w file raw →
  0 ≤ max_history o →
  ∃ st',
    import_history file true (State o w) = (Return true, st')
    ∧ newest_first (history (self st'))
    ∧ Z.of_nat (length (history (self st'))) ≤ max_history o
    ∧ ∃ dropped,
        history (self st') ++ dropped
        ≡ₚ history o ++ entries_of raw (clock w) (ticks w).
Proof.
  intros Hfile Hmax. eexists. split; [by apply import_readable_run|].
  cbn [self imported history].
  destruct (trimmed_prefix
              (Py.sorted_desc String.ltb timestamp
                 (history o ++ entries_of raw (clock w) (ticks w)))
              (max_history o)) as [dropped Hd].
  split; [|split].
  - eapply StronglySorted_app_1_l. rewrite Hd. apply sorted_desc_newest_first.
  - rewrite length_trimmed by done. lia.
  - exists dropped. rewrite Hd. apply PyFacts.sorted_desc_perm.
Qed.

(** The operations that keep the store within its bound: [add_entry] and
    [clear_history] establish it, [delete_entry] and [import_history] with
    [merge=True] preserve it. *)
Definition bounded (st : state HistoryManager) : Prop :=
  Z.of_nat (length (history (self st))) ≤ max_history (self st).

Lemma add_entry_bounded (ui gp tid : string) (st : state HistoryManager) :
  0 ≤ max_history (self st) → bounded (add_entry ui gp tid st).2.
Proof.
  destruct st as [o w]. intros Hmax. rewrite add_entry_run.
  unfold bounded. cbn. rewrite length_trimmed by done. lia.
Qed.

Lemma clear_history_bounded (st : state HistoryManager) :
  0 ≤ max_history (self st) → bounded (clear_history st).2.
Proof.
  destruct st as [o w]. intros Hmax. unfold clear_history, set_history. run.
  by rewrite save_history_run.
Qed.

Lemma delete_entry_bounded (index : Z) (st : state HistoryManager) :
  bounded st → bounded (delete_entry index st).2.
Proof.
  destruct st as [o w]. unfold bounded, delete_entry, set_history. run.
  intros Hb. destruct (_ && _) eqn:Hin; run; [|done].
  rewrite save_history_run. cbn.
  rewrite delete_take_drop, length_app, length_take, length_drop. lia.
Qed.

Lemma import_merge_bounded (file : string) (st : state HistoryManager) :
  0 ≤ max_history (self st) → bounded st → bounded (import_history file true st).2.
Proof.
  destruct st as [o w]. intros Hmax Hb. rewrite import_history_run.
  destruct (file_history w file) as [raw|e]; [|done].
  unfold bounded. cbn. rewrite length_trimmed by done. lia.
Qed.

(** *** The import that replaces the store *)

Definition large_import : state HistoryManager :=
  State (Manager "history.json" [] 100)
        {| fs := {["import.json" := Json {["history" := JList (replicate 101 ∅)]}]};
           readonly := ∅; clock := λ n, Datetime 2024 1 1 0 0 n 0; ticks := 0;
           stdout := [] |}.

Lemma large_import_readable :
  readable (world large_import) "import.json" (replicate 101 ∅).
Proof. reflexivity. Qed.

(** C1, at a file of 101 entries: [import_history] with [merge=False] returns
    [True] and leaves 101 entries in a store whose bound is 100. *)
Theorem import_replace_exceeds_bound :
  ∃ st',
    import_history "import.json" false large_import = (Return true, st')
    ∧ length (history (self st')) = 101%nat
    ∧ max_history (self st') = 100.
Proof.
  eexists. split.
  - apply (import_readable_run _ _ _ _ false large_import_readable).
  - cbn [self imported history max_history]. by rewrite length_entries_of.
Qed.

(** C2, at the same file: with [merge=False] the store is the imported
    entries as they are, which is not what trimming them to the bound gives. *)
Theorem import_replace_untrimmed :
  ∃ st',
    let entries := entries_of (replicate 101 ∅) (clock (world large_import)) 0 in
    import_history "import.json" false large_import = (Return true, st')
    ∧ history (self st') = entries
    ∧ history (self st') ≠ trimmed entries (max_history (self st')).
Proof.
  eexists. split; [|split].
  - apply (import_readable_run _ _ _ _ false large_import_readable).
  - done.
  - cbn [self imported history max_history]. intros Heq.
    apply (f_equal (λ l, Z.of_nat (length l))) in Heq.
    rewrite length_trimmed, length_entries_of, length_replicate in Heq by done.
    lia.
Qed.

(** *** Loading, and the timestamps of the store *)

Lemma load_history_run (o : HistoryManager) (w : World) :
  load_history (State o w)
  = match fs w !! history_file o with
    | None => (Return tt, State o w)
    | Some _ =>
        match file_history w (history_file o) with
        | Return raw =>
            (Return tt,
             State (Manager (history_file o) (entries_of raw (clock w) (ticks w))
                            (max_history o))
                   (at_tick w (ticks_after raw (ticks w))))
        | Raise _ =>
            (Return tt,
             State (Manager (history_file o) [] (max_history o))
                   (printed w "Error loading history"))
        end
    end.
Proof.
  unfold load_history, file_history, get_list, set_history. run.
  destruct (fs w !! history_file o) as [[e|doc]|] eqn:Hfile.
  - rewrite bool_decide_true by eauto. run. by rewrite Hfile.
  - rewrite bool_decide_true by eauto. run. rewrite Hfile. run.
    destruct (doc !! "history") as [[s|raw]|]; run.
    + case_decide; run; [|done]. by rewrite at_tick_same.
    + by rewrite mapM_from_dict_run.
    + by rewrite at_tick_same.
  - rewrite bool_decide_false by (by intros [? ?]). done.
Qed.

(** Every entry of the store has a timestamp that is not empty: the store
    starts that way, and every operation keeps it so. *)
Definition well_stamped (st : state HistoryManager) : Prop :=
  Forall stamped (history (self st)).

Lemma trimmed_stamped (h : list PromptHistoryEntry) (max : Z) :
  Forall stamped h → Forall stamped (trimmed h max).
Proof.
  intros Hh. destruct (trimmed_prefix h max) as [dropped Hd].
  rewrite <- Hd in Hh. by apply Forall_app in Hh as [? _].
Qed.

Lemma init_well_stamped (file : string) (st : state HistoryManager) :
  well_stamped (init file st).2.
Proof.
  destruct st as [o w]. unfold init, set_self. unfold bind. cbn [world].
  rewrite load_history_run. cbn [history_file history max_history].
  destruct (fs w !! file); [|by constructor].
  destruct (file_history w file); [apply entries_of_stamped | by constructor].
Qed.

Lemma add_entry_well_stamped (ui gp tid : string) (st : state HistoryManager) :
  well_stamped st → well_stamped (add_entry ui gp tid st).2.
Proof.
  destruct st as [o w]. intros Hst. rewrite add_entry_run.
  apply trimmed_stamped. constructor; [apply isoformat_nonempty | done].
Qed.

Lemma delete_entry_well_stamped (index : Z) (st : state HistoryManager) :
  well_stamped st → well_stamped (delete_entry index st).2.
Proof.
  destruct st as [o w]. unfold well_stamped, delete_entry, set_history. run.
  intros Hst. destruct (_ && _); run; [|done].
  rewrite save_history_run. cbn. rewrite delete_take_drop.
  apply Forall_app. split; [by apply Forall_take | by apply Forall_drop].
Qed.

Lemma clear_history_well_stamped (st : state HistoryManager) :
  well_stamped (clear_history st).2.
Proof.
  destruct st as [o w]. unfold clear_history, set_history. run.
  rewrite save_history_run. by constructor.
Qed.

Lemma import_history_well_stamped (file : string) (merge : bool)
    (st : state HistoryManager) :
  well_stamped st → well_stamped (import_history file merge st).2.
Proof.
  destruct st as [o w]. intros Hst. rewrite import_history_run.
  destruct (file_history w file) as [raw|e]; [|done].
  unfold well_stamped. cbn [snd self imported history]. destruct merge.
  - apply trimmed_stamped.
    rewrite (PyFacts.sorted_desc_perm String.ltb timestamp).
    apply Forall_app. split; [done | apply entries_of_stamped].
  - apply entries_of_stamped.
Qed.

(** An import that fails leaves the store as it was and reports [False]. *)
Lemma import_history_failed (o : HistoryManager) (w : World) (file : string)
    (merge : bool) (e : exn) :
  file_history w file = Raise e →
  import_history file merge (State o w)
  = (Return false, State o (printed w "Error importing history")).
Proof. intros Hfile. rewrite import_history_run. by rewrite Hfile. Qed.

(** *** What holds of the bound and of the merging import *)

(** X2: from a store within a bound that is not negative, [add_entry],
    [clear_history] and [delete_entry] lead to a store within the bound, and
    so does [import_history] with [merge=True] of a file that reads as a list
    of objects whose values are strings. *)
Theorem bounded_operations (st : state HistoryManager) :
  0 ≤ max_history (self st) → bounded st →
  (∀ ui gp tid, bounded (add_entry ui gp tid st).2)
  ∧ bounded (clear_history st).2
  ∧ (∀ index, bounded (delete_entry index st).2)
  ∧ (∀ file raw, readable (world st) file raw →
       bounded (import_history file true st).2).
Proof.
  intros Hmax Hst. repeat split.
  - intros. by apply add_entry_bounded.
  - by apply clear_history_bounded.
  - intros. by apply delete_entry_bounded.
  - intros. by apply import_merge_bounded.
Qed.

Lemma bounded_operations_witness :
  (∀ ui gp tid, bounded (add_entry ui gp tid two_entries).2)
  ∧ bounded (clear_history two_entries).2
  ∧ (∀ index, bounded (delete_entry index two_entries).2)
  ∧ (∀ file raw, readable (world two_entries) file raw →
       bounded (import_history file true two_entries).2).
Proof. apply (bounded_operations two_entries); [done | unfold bounded; cbn; lia]. Defined.

Lemma import_merge_sorted_witness :
  ∃ st',
    import_history "import.json" true large_import = (Return true, st')
    ∧ newest_first (history (self st'))
    ∧ Z.of_nat (length (history (self st'))) ≤ 100
    ∧ ∃ dropped,
        history (self st') ++ dropped
        ≡ₚ [] ++ entries_of (replicate 101 ∅) (clock (world large_import)) 0.
Proof.
  apply (import_merge_sorted (self large_import) (world large_import) "import.json"
           (replicate 101 ∅)); [reflexivity | done].
Defined.

End HistoryFacts.

(** ** The conversation memory *)

Module ConversationFacts.
Import AIPromptGenerator.

(** The [n] most recent items of a list, in their order. *)
Definition most_recent {A} (n : nat) (l : list A) : list A := drop (length l - n) l.

(** The list [save_conversation] keeps, the document it writes and the world
    it leaves; the clock is read before the file is opened. *)
Definition kept (h : list (gmap string string)) (max : Z) : list (gmap string string) :=
  if Z.of_nat (length h) >? max * 2 then Py.slice_from h (- (max * 2)) else h.

Definition conversation_doc (last_updated : string) (h : list (gmap string string))
  : gmap string json :=
  <["version" := JStr "1.0"]> (
  <["last_updated" := JStr last_updated]> (
  <["messages" := JList h]> ∅)).

Definition saved (o : AIPromptGenerator) (w : World) : World :=
  if decide (conversation_file o ∈ readonly w)
  then printed (ticked w) "Error saving conversation"
  else written (ticked w) (conversation_file o)
         (conversation_doc (isoformat (clock w (ticks w))) (conversation_history o)).

Definition message (m : string * string) : gmap string string :=
  <["role" := m.1]> (<["content" := m.2]> ∅).

Definition say (m : string * string) : M AIPromptGenerator unit :=
  add_to_conversation m.1 m.2.

Lemma save_conversation_run (o : AIPromptGenerator) (w : World) :
  let o' := Generator (kept (conversation_history o) (max_conversation_turns o))
                      (conversation_file o) (max_conversation_turns o) in
  save_conversation (State o w) = (Return tt, State o' (saved o' w)).
Proof.
  intros o'. unfold save_conversation, set_conversation_history, saved. run.
  subst o'. unfold kept. destruct (_ >? _); run; case_decide; run; try done.
  all: by destruct o.
Qed.

Lemma say_run (m : string * string) (o : AIPromptGenerator) (w : World) :
  let o' := Generator (kept (conversation_history o ++ [message m])
                            (max_conversation_turns o))
                      (conversation_file o) (max_conversation_turns o) in
  say m (State o w) = (Return tt, State o' (saved o' w)).
Proof.
  intros o'. unfold say, add_to_conversation, set_conversation_history. run.
  by rewrite save_conversation_run.
Qed.

Lemma saved_readonly (o : AIPromptGenerator) (w : World) :
  readonly (saved o w) = readonly w.
Proof. unfold saved. by case_decide. Qed.

(** With a positive bound, what is kept is the most recent [2 * max]. *)
Lemma kept_most_recent (h : list (gmap string string)) (max : Z) :
  0 < max → kept h max = most_recent (Z.to_nat (max * 2)) h.
Proof.
  intros Hmax. unfold kept, most_recent, Py.slice_from.
  destruct (Z.gtb_spec (Z.of_nat (length h)) (max * 2)) as [Hlen|Hlen].
  - rewrite PyFacts.slice_index_neg by lia. f_equal. lia.
  - by replace (length h - Z.to_nat (max * 2))%nat with 0%nat by lia.
Qed.

Lemma most_recent_app {A} (n : nat) (l l' : list A) :
  most_recent n (most_recent n l ++ l') = most_recent n (l ++ l').
Proof.
  unfold most_recent. rewrite !length_app, length_drop.
  destruct (decide (length l ≤ n)%nat) as [Hle|Hgt].
  - replace (length l - n)%nat with 0%nat by lia. by rewrite Nat.sub_0_r.
  - replace (length l + length l' - n)%nat with ((length l - n) + length l')%nat by lia.
    replace (length l - (length l - n) + length l' - n)%nat with (length l') by lia.
    rewrite <- drop_drop. f_equal. rewrite drop_app_le by lia. done.
Qed.

Lemma most_recent_idem {A} (n : nat) (l : list A) :
  most_recent n (most_recent n l) = most_recent n l.
Proof.
  rewrite <- (List.app_nil_r (most_recent n l)) at 1.
  by rewrite most_recent_app, List.app_nil_r.
Qed.

Lemma most_recent_all {A} (n : nat) (l : list A) :
  (length l ≤ n)%nat → most_recent n l = l.
Proof. intros Hl. unfold most_recent. by replace (length l - n)%nat with 0%nat by lia. Qed.

(** The history in memory after messages are appended one by one, each
    append followed by its save. *)
Fixpoint after_says (h : list (gmap string string)) (msgs : list (string * string))
    (max : Z) : list (gmap string string) :=
  match msgs with
  | [] => h
  | m :: msgs' => after_says (kept (h ++ [message m]) max) msgs' max
  end.

Lemma says_run (msgs : list (string * string)) (o : AIPromptGenerator) (w : World) :
  ∃ w',
    forM_ msgs say (State o w)
    = (Return tt,
       State (Generator (after_says (conversation_history o) msgs
                           (max_conversation_turns o))
                        (conversation_file o) (max_conversation_turns o)) w')
    ∧ readonly w' = readonly w.
Proof.
  revert o w. induction msgs as [|m msgs IH]; intros o w.
  - exists w. by destruct o.
  - cbn [forM_ after_says]. unfold bind. rewrite say_run.
    match goal with |- context [State ?o1 ?w1] =>
      destruct (IH o1 w1) as (w' & -> & Hro) end.
    exists w'. split; [done|]. by rewrite Hro, saved_readonly.
Qed.

Lemma after_says_most_recent (h : list (gmap string string))
    (msgs : list (string * string)) (max : Z) :
  0 < max → msgs ≠ [] →
  after_says h msgs max = most_recent (Z.to_nat (max * 2)) (h ++ (message <$> msgs)).
Proof.
  intros Hmax. revert h. induction msgs as [|m msgs IH]; intros h Hne; [done|].
  cbn [after_says]. rewrite kept_most_recent by done.
  destruct msgs as [|m' msgs].
  - done.
  - rewrite IH by done. rewrite most_recent_app.
    by rewrite <- List.app_assoc.
Qed.

(** C4: with a positive bound and a conversation file that can be written,
    appending [2 * max_conversation_turns + k] messages, [k > 0], and saving
    returns normally and leaves on disk exactly [2 * max_conversation_turns]
    messages: the appended ones without the first [k], in their order. *)
Theorem conversation_keeps_most_recent (o : AIPromptGenerator) (w : World)
    (msgs : list (string * string)) (k : Z) :
  0 < max_conversation_turns o →
  conversation_file o ∉ readonly w →
  0 < k →
  Z.of_nat (length msgs) = 2 * max_conversation_turns o + k →
  ∃ st' doc,
    (forM_ msgs say;; save_conversation) (State o w) = (Return tt, st')
    ∧ fs (world st') !! conversation_file o = Some (Json doc)
    ∧ doc !! "messages" = Some (JList (drop (Z.to_nat k) (message <$> msgs)))
    ∧ Z.of_nat (length (drop (Z.to_nat k) (message <$> msgs)))
      = 2 * max_conversation_turns o.
Proof.
  intros Hmax Hw Hk Hlen.
  destruct (says_run msgs o w) as (w' & Hrun & Hro).
  unfold bind at 1. rewrite Hrun, save_conversation_run. unfold saved.
  cbn [conversation_file conversation_history max_conversation_turns].
  rewrite decide_False by (by rewrite Hro).
  eexists _, _. split; [reflexivity|]. cbn [world written fs].
  split; [apply lookup_insert_eq|]. split.
  - unfold conversation_doc. simplify_map_eq. do 2 f_equal.
    rewrite after_says_most_recent by (try done; intros ->; cbn in Hlen; lia).
    rewrite kept_most_recent, most_recent_idem by done.
    unfold most_recent. rewrite drop_app_ge by (rewrite length_app, length_fmap; lia).
    f_equal. rewrite length_app, length_fmap. lia.
  - rewrite length_drop, length_fmap. lia.
Qed.

Definition fresh : state AIPromptGenerator :=
  State (Generator [] "conversation.json" 50)
        {| fs := ∅; readonly := ∅; clock := λ n, Datetime 2024 1 1 0 0 0 n;
           ticks := 0; stdout := [] |}.

Lemma conversation_keeps_most_recent_witness :
  ∃ st' doc,
    (forM_ (replicate 101 ("user", "hello")) say;; save_conversation) fresh
    = (Return tt, st')
    ∧ fs (world st') !! "conversation.json" = Some (Json doc)
    ∧ doc !! "messages"
      = Some (JList (drop (Z.to_nat 1) (message <$> replicate 101 ("user", "hello"))))
    ∧ Z.of_nat (length (drop (Z.to_nat 1) (message <$> replicate 101 ("user", "hello"))))
      = 2 * 50.
Proof.
  apply (conversation_keeps_most_recent (self fresh) (world fresh)
           (replicate 101 ("user", "hello")) 1).
  - reflexivity.
  - cbn. set_solver.
  - reflexivity.
  - reflexivity.
Defined.

End ConversationFacts.

(** ** Spelling errors *)

Module SpellingFacts.
Import AIPromptGenerator.

(** The error [find_spelling_errors] records for a word that has candidates. *)
Definition flagged (text : string) (m : nat * nat) (cands : list string)
  : spelling_error :=
  let start_pos := Z.of_nat m.1 in
  let end_pos := Z.of_nat m.2 in
  SpellingError (Py.str_slice text start_pos end_pos) start_pos end_pos
                (take 5 cands) (get_word_context text start_pos end_pos).

Lemma check_match_spec `{Unicode} (sc : SpellChecker) (text : string) (m : nat * nat)
    (error : spelling_error) :
  error ∈ check_match sc text m ↔
  ∃ c cands,
    (2 < String.length (Py.str_slice text (Z.of_nat m.1) (Z.of_nat m.2)))%nat
    ∧ contains sc (lower (Py.str_slice text (Z.of_nat m.1) (Z.of_nat m.2))) = false
    ∧ candidates sc (Py.str_slice text (Z.of_nat m.1) (Z.of_nat m.2)) = Some (c :: cands)
    ∧ error = flagged text m (c :: cands).
Proof.
  unfold check_match, flagged.
  set (w := Py.str_slice text (Z.of_nat m.1) (Z.of_nat m.2)).
  destruct (Nat.leb_spec (String.length w) 2) as [Hlen|Hlen].
  { split; [by intros ?%elem_of_nil | intros (? & ? & ? & _); lia]. }
  destruct (contains sc (lower w)) eqn:Hknown.
  { split; [by intros ?%elem_of_nil | by intros (? & ? & _ & ? & _)]. }
  destruct (candidates sc w) as [[|c cands]|] eqn:Hcands.
  - split; [by intros ?%elem_of_nil | by intros (? & ? & _ & _ & ? & _)].
  - rewrite list_elem_of_singleton. split.
    + intros ->. by exists c, cands.
    + by intros (? & ? & _ & _ & [= <- <-] & ->).
  - split; [by intros ?%elem_of_nil | by intros (? & ? & _ & _ & ? & _)].
Qed.

(** C9, as the code has it: the errors are exactly the matched words longer
    than two characters whose lowered form the checker does not know and for
    which it offers at least one candidate; so no word of length at most 2 is
    flagged, and each error carries at least one and at most five
    suggestions. *)
Theorem find_spelling_errors_flags `{Unicode} (sc : SpellChecker) (text : string) :
  (∀ error,
     error ∈ find_spelling_errors sc text ↔
     ∃ m c cands,
       m ∈ finditer text
       ∧ (2 < String.length (Py.str_slice text (Z.of_nat m.1) (Z.of_nat m.2)))%nat
       ∧ contains sc (lower (Py.str_slice text (Z.of_nat m.1) (Z.of_nat m.2))) = false
       ∧ candidates sc (Py.str_slice text (Z.of_nat m.1) (Z.of_nat m.2))
         = Some (c :: cands)
       ∧ error = flagged text m (c :: cands))
  ∧ (∀ error,
       error ∈ find_spelling_errors sc text →
       (2 < String.length (word error))%nat
       ∧ (1 ≤ length (suggestions error) ≤ 5)%nat).
Proof.
  assert (∀ error,
     error ∈ find_spelling_errors sc text ↔
     ∃ m c cands,
       m ∈ finditer text
       ∧ (2 < String.length (Py.str_slice text (Z.of_nat m.1) (Z.of_nat m.2)))%nat
       ∧ contains sc (lower (Py.str_slice text (Z.of_nat m.1) (Z.of_nat m.2))) = false
       ∧ candidates sc (Py.str_slice text (Z.of_nat m.1) (Z.of_nat m.2))
         = Some (c :: cands)
       ∧ error = flagged text m (c :: cands)) as Hspec.
  { intros error. unfold find_spelling_errors.
    rewrite list_elem_of_In, in_flat_map. split.
    - intros (m & Hm & Herr). apply list_elem_of_In in Hm, Herr.
      apply check_match_spec in Herr as (c & cands & ?). by exists m, c, cands.
    - intros (m & c & cands & Hm & Herr). exists m.
      rewrite <- !list_elem_of_In. split; [done|].
      apply check_match_spec. by exists c, cands. }
  split; [done|].
  intros error (m & c & cands & _ & Hlen & _ & _ & ->)%Hspec.
  cbn [flagged word suggestions]. split; [done|].
  rewrite length_take. cbn [length]. lia.
Qed.

(** Letters next to a digit or an underscore are no match; an apostrophe or
    a hyphen bounds a word. *)
Example finditer_words :
  @finditer ascii_only "The qick fox abc1 a_b it's x-ray"
  = [(0, 3); (4, 8); (9, 12); (22, 24); (25, 26); (27, 28); (29, 32)]%nat.
Proof. reflexivity. Qed.

(** A checker that knows no word and has no candidate to offer. *)
Definition no_candidates : SpellChecker :=
  {| contains := λ _, false; candidates := λ _, None |}.

(** A word of three letters that is not in the dictionary and is not flagged,
    because the checker has no candidate for it. *)
Lemma unknown_word_not_flagged :
  @finditer ascii_only "xyz" = [(0%nat, 3%nat)]
  ∧ contains no_candidates (@lower ascii_only "xyz") = false
  ∧ @find_spelling_errors ascii_only no_candidates "xyz" = [].
Proof. done. Qed.

End SpellingFacts.

(** ** Applying corrections *)

Module CorrectorFacts.
Import Py PyFacts AIPromptGenerator.

(** The text with each span replaced, built in one pass over the original
    text from the corrections in the order of their positions:
    [text[pos:s1] + r1 + text[e1:s2] + r2 + ... + text[en:]]. *)
Fixpoint splice (text : string) (pos : Z) (asc : list correction) : string :=
  match asc with
  | [] => str_slice_from text pos
  | c :: asc' =>
      str_slice text pos (start c) +:+ replacement c +:+ splice text (end_ c) asc'
  end.

(** Corrections that lie between [lo] and [hi] one after the other: each span
    is in bounds and ends before the next begins. *)
Fixpoint chain (lo : Z) (asc : list correction) (hi : Z) : Prop :=
  match asc with
  | [] => lo ≤ hi
  | c :: asc' => lo ≤ start c ∧ start c ≤ end_ c ∧ chain (end_ c) asc' hi
  end.

Lemma chain_le lo asc hi : chain lo asc hi → lo ≤ hi.
Proof.
  revert lo. induction asc as [|c asc IH]; intros lo; cbn; [done|].
  intros (? & ? & ?%IH). lia.
Qed.

Lemma chain_snoc lo asc d hi :
  chain lo (asc ++ [d]) hi ↔ chain lo asc (start d) ∧ start d ≤ end_ d ∧ end_ d ≤ hi.
Proof.
  revert lo. induction asc as [|c asc IH]; intros lo; cbn; [tauto|].
  rewrite IH. tauto.
Qed.

Lemma chain_sorted lo asc hi :
  chain lo asc hi → Sorted (λ c d, start c ≤ start d) asc.
Proof.
  revert lo. induction asc as [|c asc IH]; intros lo; cbn; [constructor|].
  intros (_ & Hc & Hasc). constructor; [by eapply IH|].
  destruct asc as [|d asc]; constructor. cbn in Hasc. lia.
Qed.

Lemma length_str_drop (n : nat) (s : string) :
  String.length (str_drop n s) = (String.length s - n)%nat.
Proof. revert s. induction n as [|n IH]; intros [|c s]; cbn; done. Qed.

Section walk.
Variable text : string.

(** [splice] on positions that are natural numbers, up to the position [hi]. *)
Fixpoint walk (pos : nat) (asc : list correction) (hi : nat) : string :=
  match asc with
  | [] => str_take (hi - pos) (str_drop pos text)
  | c :: asc' =>
      str_take (Z.to_nat (start c) - pos) (str_drop pos text) +:+ replacement c
      +:+ walk (Z.to_nat (end_ c)) asc' hi
  end.

Lemma walk_snoc (pos : nat) (asc : list correction) (d : correction) (hi : nat) :
  walk pos (asc ++ [d]) hi
  = walk pos asc (Z.to_nat (start d)) +:+ replacement d
    +:+ str_take (hi - Z.to_nat (end_ d)) (str_drop (Z.to_nat (end_ d)) text).
Proof.
  revert pos. induction asc as [|c asc IH]; intros pos; cbn [app walk]; [done|].
  by rewrite IH, !app_assoc.
Qed.

Lemma walk_splice (asc : list correction) (pos : Z) :
  0 ≤ pos → chain pos asc (Z.of_nat (String.length text)) →
  walk (Z.to_nat pos) asc (String.length text) = splice text pos asc.
Proof.
  revert pos. induction asc as [|c asc IH]; intros pos Hpos; cbn [chain walk splice].
  - intros Hhi. unfold str_slice_from. rewrite slice_index_nonneg by done.
    apply str_take_all. rewrite length_str_drop. lia.
  - intros (Hs & He & Hasc). rewrite IH by (done || lia).
    unfold str_slice. by rewrite !slice_index_nonneg by lia.
Qed.

(** One correction applied to a buffer whose first [b] characters are still
    those of the text, at a span within them. *)
Lemma apply_correction_prefix (d : correction) (b : nat) (rest : string) :
  0 ≤ start d ≤ end_ d → end_ d ≤ Z.of_nat b → (b ≤ String.length text)%nat →
  apply_correction (str_take b text +:+ rest) d
  = str_take (Z.to_nat (start d)) text
    +:+ (replacement d
         +:+ str_take (b - Z.to_nat (end_ d)) (str_drop (Z.to_nat (end_ d)) text)
         +:+ rest).
Proof.
  intros Hd Hb Hlen. unfold apply_correction, str_slice_to, str_slice_from.
  rewrite !slice_index_nonneg by lia.
  assert (String.length (str_take b text) = b) as Hb'
    by (rewrite length_str_take; lia).
  rewrite str_take_app_le, str_take_take by lia.
  rewrite str_drop_app_le, str_drop_take by lia. done.
Qed.

(** The corrections applied from the last to the first. *)
Lemma fold_walk (asc : list correction) :
  ∀ (b : nat) (rest : string),
    chain 0 asc (Z.of_nat b) → (b ≤ String.length text)%nat →
    fold_left apply_correction (reverse asc) (str_take b text +:+ rest)
    = walk 0 asc b +:+ rest.
Proof.
  induction asc as [|d asc IH] using rev_ind; intros b rest Hchain Hb.
  - cbn. by rewrite Nat.sub_0_r.
  - apply chain_snoc in Hchain as (Hasc & Hd & Hend).
    pose proof (chain_le _ _ _ Hasc) as Hstart.
    rewrite reverse_snoc. cbn [fold_left].
    rewrite apply_correction_prefix by (done || lia).
    rewrite IH by (rewrite ?Z2Nat.id; done || lia).
    by rewrite walk_snoc, !app_assoc.
Qed.

End walk.

(** Sorting by [start] in descending order gives the corrections from the
    last to the first when no two start at the same position. *)
Lemma same_start_same (cs : list correction) (c d : correction) :
  NoDup (start <$> cs) → c ∈ cs → d ∈ cs → start c = start d → c = d.
Proof.
  induction cs as [|x cs IH]; cbn; [by intros _ ?%elem_of_nil|].
  rewrite NoDup_cons, !elem_of_cons, list_elem_of_fmap.
  intros [Hx Hcs] [->|Hc] [->|Hd] Heq; [done| | |by apply IH].
  - destruct Hx. by exists d.
  - destruct Hx. by exists c.
Qed.

Lemma sorted_desc_reverse (cs asc : list correction) (lo hi : Z) :
  cs ≡ₚ asc → chain lo asc hi → NoDup (start <$> cs) →
  sorted_desc Z.ltb start cs = reverse asc.
Proof.
  intros Hperm Hchain Hnodup.
  apply (StronglySorted_unique_strong (λ c d, start d ≤ start c)).
  - intros c d Hc Hd Hcd Hdc.
    apply (same_start_same cs); [done| | |lia].
    + by rewrite <- (sorted_desc_perm Z.ltb start cs).
    + by rewrite Hperm, <- (reverse_Permutation asc).
  - apply Sorted_StronglySorted; [intros c d e; lia|].
    eapply Sorted_weaken; [|apply sorted_desc_sorted].
    + intros c d. unfold not_below. lia.
    + intros a b. lia.
  - apply Sorted_StronglySorted; [intros c d e; lia|].
    apply (Sorted_reverse (λ c d, start c ≤ start d)). by eapply chain_sorted.
  - by rewrite sorted_desc_perm, Hperm, reverse_Permutation.
Qed.

(** C3, as the code has it: the correction of the specification's first
    example, its two corrections applied together, and the general statement:
    when the corrections, arranged by position, lie in the text one after the
    other without overlapping and no two of them start at the same position
    (as is the case when no span is empty), [apply_corrections] gives the text
    with every span replaced, whatever order the corrections are given in. *)
Theorem apply_corrections_correct :
  apply_corrections "The qick fox" [Correction 4 8 "quick"] = "The quick fox"
  ∧ apply_corrections "a bb ccc" [Correction 2 4 "BEE"; Correction 5 8 "SEE"]
    = "a BEE SEE"
  ∧ ∀ (text : string) (cs asc : list correction),
      cs ≡ₚ asc →
      chain 0 asc (Z.of_nat (String.length text)) →
      NoDup (start <$> cs) →
      apply_corrections text cs = splice text 0 asc.
Proof.
  split; [done|]. split; [done|].
  intros text cs asc Hperm Hchain Hnodup. unfold apply_corrections.
  rewrite (sorted_desc_reverse cs asc _ _ Hperm Hchain Hnodup).
  rewrite <- (str_take_all (String.length text) text) at 1 by done.
  rewrite <- (app_nil_r (str_take _ text)).
  rewrite fold_walk, app_nil_r by done.
  by apply (walk_splice text asc 0).
Qed.

Lemma apply_corrections_correct_witness :
  apply_corrections "a bb ccc" [Correction 5 8 "SEE"; Correction 2 4 "BEE"]
  = splice "a bb ccc" 0 [Correction 2 4 "BEE"; Correction 5 8 "SEE"].
Proof.
  apply (proj2 (proj2 apply_corrections_correct)).
  - apply Permutation_swap.
  - cbn. lia.
  - apply (bool_decide_unpack _). reflexivity.
Defined.

(** Spans that are not empty and lie one after the other start at different
    positions. *)
Lemma chain_nonempty_NoDup (lo : Z) (asc : list correction) (hi : Z) :
  chain lo asc hi → Forall (λ c, start c < end_ c) asc → NoDup (start <$> asc).
Proof.
  revert lo. induction asc as [|c asc IH]; intros lo; cbn; [constructor|].
  intros (Hlo & Hc & Hasc) [Hne Hrest]%Forall_cons. constructor; [|by eapply IH].
  intros (d & Heq & Hd)%list_elem_of_fmap.
  assert (∀ lo', chain lo' asc hi → d ∈ asc → lo' ≤ start d) as Hlow.
  { clear. induction asc as [|x asc IH]; intros lo'; cbn; [by intros _ ?%elem_of_nil|].
    intros (? & ? & Hasc) Hx. apply elem_of_cons in Hx as [Hx|Hx]; [by subst|].
    specialize (IH _ Hasc Hx). lia. }
  specialize (Hlow _ Hasc Hd). lia.
Qed.

(** An insertion at the position where a replaced span starts: the two spans
    are in bounds and do not overlap, yet when the insertion is given first
    the replacement overwrites it and the span [3,5) stays in the text. *)
Definition insertion_then_replacement : list correction :=
  [Correction 3 3 "XY"; Correction 3 5 "R"].

Lemma insertion_overwritten :
  chain 0 insertion_then_replacement 5
  ∧ splice "abcde" 0 insertion_then_replacement = "abcXYR"
  ∧ apply_corrections "abcde" insertion_then_replacement = "abcRde".
Proof. split; [cbn; lia | done]. Qed.

(** Given the other way round, the same two corrections come out right. *)
Example replacement_then_insertion :
  apply_corrections "abcde" [Correction 3 5 "R"; Correction 3 3 "XY"] = "abcXYR".
Proof. done. Qed.

End CorrectorFacts.

(** ** More of the history store *)

Module StoreFacts.
Import HistoryManager HistoryFacts.

(** *** Deleting and looking up by index *)

(** X3: [delete_entry] with an index outside [0, len), a negative one
    included, does nothing at all: store, files, clock and console stay as
    they are, and nothing is saved. *)
Theorem delete_entry_out_of_range (o : HistoryManager) (w : World) (index : Z) :
  index < 0 ∨ Z.of_nat (length (history o)) ≤ index →
  delete_entry index (State o w) = (Return tt, State o w).
Proof.
  intros Hout. unfold delete_entry. run.
  destruct (Z.leb_spec 0 index), (Z.ltb_spec index (Z.of_nat (length (history o))));
    cbn; try done; lia.
Qed.

Lemma delete_entry_out_of_range_witness :
  delete_entry (-1) two_entries = (Return tt, two_entries).
Proof.
  apply (delete_entry_out_of_range (self two_entries) (world two_entries) (-1)).
  left. lia.
Defined.

Lemma delete_entry_run (o : HistoryManager) (w : World) (i : nat) :
  (i < length (history o))%nat →
  let o' := Manager (history_file o) (delete i (history o)) (max_history o) in
  delete_entry (Z.of_nat i) (State o w) = (Return tt, State o' (saved o' w)).
Proof.
  intros Hi o'. unfold delete_entry, set_history. run.
  destruct (Z.leb_spec 0 (Z.of_nat i)); [|lia].
  destruct (Z.ltb_spec (Z.of_nat i) (Z.of_nat (length (history o)))); [|lia].
  cbn [andb]. run. rewrite save_history_run. by rewrite Nat2Z.id.
Qed.

(** X4: [delete_entry] with an index inside the store removes the entry at
    that position and no other: the store is one shorter, the entries before
    the index stay where they are, those after it move up by one, and the
    result is saved. *)
Theorem delete_entry_in_range (o : HistoryManager) (w : World) (i : nat) :
  (i < length (history o))%nat →
  ∃ o',
    delete_entry (Z.of_nat i) (State o w) = (Return tt, State o' (saved o' w))
    ∧ history_file o' = history_file o
    ∧ max_history o' = max_history o
    ∧ S (length (history o')) = length (history o)
    ∧ ∀ j, history o' !! j = history o !! (if decide (j < i)%nat then j else S j).
Proof.
  intros Hi. eexists. split; [by apply delete_entry_run|].
  cbn [history_file max_history history]. repeat split.
  - rewrite length_delete by (by apply lookup_lt_is_Some). lia.
  - intros j. apply list_lookup_delete.
Qed.

Lemma delete_entry_in_range_witness :
  ∃ o',
    delete_entry (Z.of_nat 0) two_entries = (Return tt, State o' (saved o' (world two_entries)))
    ∧ history_file o' = "history.json"
    ∧ max_history o' = 100
    ∧ S (length (history o')) = 2%nat
    ∧ ∀ j, history o' !! j
           = history (self two_entries) !! (if decide (j < 0)%nat then j else S j).
Proof.
  apply (delete_entry_in_range (self two_entries) (world two_entries) 0).
  cbn. lia.
Defined.

(** [get_entry] returns the entry at the index when the index is inside the
    store and [None] otherwise (a negative index does not count from the
    end); it changes nothing. *)
Lemma get_entry_lookup (o : HistoryManager) (w : World) (index : Z) :
  get_entry index (State o w)
  = (Return (if decide (0 ≤ index) then history o !! Z.to_nat index else None),
     State o w).
Proof.
  unfold get_entry. run.
  destruct (Z.leb_spec 0 index), (Z.ltb_spec index (Z.of_nat (length (history o))));
    cbn; case_decide; try done; try lia.
  unfold ret. repeat f_equal. symmetry. apply lookup_ge_None. lia.
Qed.

(** X5: the row at position [i] of the list that [get_history] gives for a
    positive limit is the entry that [get_entry] returns for [i] and the one
    that [delete_entry] removes from the store. *)
Theorem shown_row_is_entry (o : HistoryManager) (w : World) (limit : Z) (i : nat)
    (entry : PromptHistoryEntry) :
  0 < limit →
  limited (history o) (Some limit) !! i = Some entry →
  get_entry (Z.of_nat i) (State o w) = (Return (Some entry), State o w)
  ∧ history o !! i = Some entry
  ∧ ∃ o', delete_entry (Z.of_nat i) (State o w) = (Return tt, State o' (saved o' w))
          ∧ history o' = delete i (history o).
Proof.
  intros Hlimit Hrow. unfold limited in Hrow.
  rewrite decide_False, decide_True in Hrow by lia.
  apply lookup_take_Some in Hrow as [Hrow _].
  split; [|split; [done|]].
  - rewrite get_entry_lookup, decide_True by lia. by rewrite Nat2Z.id, Hrow.
  - eexists. split; [apply delete_entry_run; by eapply lookup_lt_Some|done].
Qed.

Lemma shown_row_is_entry_witness :
  let entry := Entry "first" "A" "context_aware" "2024-05-01T10:00:00" in
  get_entry (Z.of_nat 1) two_entries = (Return (Some entry), two_entries)
  ∧ history (self two_entries) !! 1%nat = Some entry
  ∧ ∃ o', delete_entry (Z.of_nat 1) two_entries
          = (Return tt, State o' (saved o' (world two_entries)))
          ∧ history o' = delete 1%nat (history (self two_entries)).
Proof.
  intros entry.
  apply (shown_row_is_entry (self two_entries) (world two_entries) 50 1 entry);
    [lia | reflexivity].
Defined.

(** *** Exporting and importing *)

Definition export_doc (exported_at : string) (h : list PromptHistoryEntry)
  : gmap string json :=
  <["version" := JStr "1.0"]> (
  <["exported_at" := JStr exported_at]> (
  <["history" := JList (PromptHistoryEntry.to_dict <$> h)]> ∅)).

Lemma export_history_run (o : HistoryManager) (w : World) (file : string) :
  export_history file (State o w)
  = if decide (file ∈ readonly w)
    then (Return false, State o (printed (ticked w) "Error exporting history"))
    else (Return true,
          State o (written (ticked w) file
                     (export_doc (isoformat (clock w (ticks w))) (history o)))).
Proof. unfold export_history, export_doc. run. by case_decide. Qed.

(** X6: [export_history] never raises and never changes the store, nor any
    file other than the export file; it returns [True] when the export file
    can be written, and whenever it returns [True] the file holds the whole
    store, entry by entry in the order of the store. *)
Theorem export_history_outcome (o : HistoryManager) (w : World) (file : string) :
  ∃ ok w',
    export_history file (State o w) = (Return ok, State o w')
    ∧ (file ∉ readonly w → ok = true)
    ∧ (ok = true →
       file_history w' file = Return (PromptHistoryEntry.to_dict <$> history o))
    ∧ (∀ other, other ≠ file → fs w' !! other = fs w !! other).
Proof.
  rewrite export_history_run. case_decide as Hro.
  - eexists false, _. split; [done|]. by repeat split.
  - eexists true, _. split; [done|]. repeat split; try done.
    + intros _. unfold file_history, export_doc. cbn [fs written]. by simplify_map_eq.
    + intros other Hother. cbn [fs written ticked]. by rewrite lookup_insert_ne.
Qed.

Lemma entries_of_to_dict (h : list PromptHistoryEntry) (clock : nat → datetime) (t : nat) :
  Forall stamped h →
  entries_of (PromptHistoryEntry.to_dict <$> h) clock t = h
  ∧ ticks_after (PromptHistoryEntry.to_dict <$> h) t = t.
Proof.
  induction 1 as [|e h He Hh [IH1 IH2]]; [done|].
  cbn [fmap list_fmap entries_of ticks_after].
  assert (keeps_timestamp (PromptHistoryEntry.to_dict e) = true) as Hkeep.
  { unfold keeps_timestamp, PromptHistoryEntry.to_dict. simplify_map_eq.
    by apply bool_decide_true. }
  rewrite Hkeep, IH1, IH2. split; [|done]. f_equal.
  unfold entry_of. rewrite Hkeep. unfold PromptHistoryEntry.to_dict.
  simplify_map_eq. by destruct e.
Qed.

(** X7: a backup restores the store: after [export_history] to a writable
    file other than the history file, [clear_history] and then
    [import_history] of that file with [merge=False] return [True] and leave
    the entries that were exported, in their order. *)
Theorem export_clear_import_restores (o : HistoryManager) (w : World) (file : string) :
  file ∉ readonly w →
  file ≠ history_file o →
  Forall stamped (history o) →
  ∃ w',
    (export_history file;; clear_history;; import_history file false) (State o w)
    = (Return true, State o w').
Proof.
  intros Hw Hfile Hh. unfold bind at 1. rewrite export_history_run, decide_False by done.
  unfold bind at 1. unfold clear_history at 1, set_history. run.
  rewrite save_history_run, import_history_run.
  set (o0 := Manager (history_file o) [] (max_history o)).
  set (w1 := written (ticked w) file _).
  assert (file_history (saved o0 w1) file
          = Return (PromptHistoryEntry.to_dict <$> history o)) as ->.
  { unfold file_history, saved, export_doc, w1. case_decide; cbn [fs printed written o0 history_file].
    - by simplify_map_eq.
    - rewrite lookup_insert_ne by done. by simplify_map_eq. }
  destruct (entries_of_to_dict (history o) (clock (saved o0 w1)) (ticks (saved o0 w1)) Hh)
    as [-> _].
  eexists. f_equal. f_equal. by destruct o.
Qed.

Lemma export_clear_import_restores_witness :
  ∃ w',
    (export_history "backup.json";; clear_history;; import_history "backup.json" false)
      two_entries
    = (Return true, State (self two_entries) w').
Proof.
  apply (export_clear_import_restores (self two_entries) (world two_entries) "backup.json").
  - cbn. set_solver.
  - done.
  - repeat constructor; done.
Defined.

(** X8: importing a store's own export with [merge=True] does not recognise
    the entries it already has: each comes in a second time, so the store
    holds [min(2 * len, max_history)] entries afterwards. *)
Theorem export_import_merge_doubles (o : HistoryManager) (w : World) (file : string) :
  file ∉ readonly w →
  0 ≤ max_history o →
  Forall stamped (history o) →
  ∃ st',
    (export_history file;; import_history file true) (State o w) = (Return true, st')
    ∧ Z.of_nat (length (history (self st')))
      = Z.min (2 * Z.of_nat (length (history o))) (max_history o)
    ∧ ∃ dropped, history (self st') ++ dropped ≡ₚ history o ++ history o.
Proof.
  intros Hw Hmax Hh. unfold bind at 1. rewrite export_history_run, decide_False by done.
  rewrite import_history_run.
  set (w1 := written (ticked w) file _).
  assert (file_history w1 file = Return (PromptHistoryEntry.to_dict <$> history o)) as ->.
  { unfold file_history, export_doc, w1. cbn [fs written]. by simplify_map_eq. }
  destruct (entries_of_to_dict (history o) (clock w1) (ticks w1) Hh) as [-> _].
  eexists. split; [reflexivity|]. cbn [self imported history]. split.
  - rewrite length_trimmed, PyFacts.length_sorted_desc, length_app by done. lia.
  - destruct (trimmed_prefix
                (Py.sorted_desc String.ltb timestamp (history o ++ history o))
                (max_history o)) as [dropped Hd].
    exists dropped. rewrite Hd. apply PyFacts.sorted_desc_perm.
Qed.

Lemma export_import_merge_doubles_witness :
  ∃ st',
    (export_history "backup.json";; import_history "backup.json" true) two_entries
    = (Return true, st')
    ∧ Z.of_nat (length (history (self st')))
      = Z.min (2 * Z.of_nat (length (history (self two_entries)))) 100
    ∧ ∃ dropped, history (self st') ++ dropped
                 ≡ₚ history (self two_entries) ++ history (self two_entries).
Proof.
  apply (export_import_merge_doubles (self two_entries) (world two_entries) "backup.json").
  - cbn. set_solver.
  - done.
  - repeat constructor; done.
Defined.

(** X9: when reading the history of the import file raises (the file is
    missing, cannot be read or parsed, or holds a string other than the empty
    one where the list of its history should be), [import_history] returns
    [False] for either mode and leaves the store and every file as they
    were. *)
Theorem import_history_unreadable (o : HistoryManager) (w : World) (file : string)
    (merge : bool) (e : exn) :
  file_history w file = Raise e →
  ∃ w',
    import_history file merge (State o w) = (Return false, State o w')
    ∧ fs w' = fs w.
Proof. intros Hfile. rewrite import_history_run, Hfile. by eexists. Qed.

Lemma import_history_unreadable_witness :
  ∃ w',
    import_history "missing.json" true two_entries
    = (Return false, State (self two_entries) w')
    ∧ fs w' = fs (world two_entries).
Proof.
  apply (import_history_unreadable (self two_entries) (world two_entries)
           "missing.json" true OSError).
  reflexivity.
Defined.

(** *** Starting up *)

Lemma init_run (file : string) (o : HistoryManager) (w : World) :
  init file (State o w) = load_history (State (Manager file [] 100) w).
Proof. done. Qed.

(** X10: constructing a manager never raises and writes no file; the bound is
    100 and every entry is stamped.  When the history file does not exist the
    store is empty and nothing is printed: a missing file is not an error. *)
Theorem init_outcome (file : string) (o : HistoryManager) (w : World) :
  ∃ h w',
    init file (State o w) = (Return tt, State (Manager file h 100) w')
    ∧ Forall stamped h
    ∧ fs w' = fs w
    ∧ (fs w !! file = None → h = [] ∧ w' = w).
Proof.
  rewrite init_run, load_history_run. cbn [history_file max_history].
  destruct (fs w !! file) as [f|] eqn:Hfile.
  - destruct (file_history w file) as [raw|e].
    + eexists _, _. split; [done|]. split; [apply entries_of_stamped|]. by split.
    + eexists _, _. split; [done|]. split; [constructor|]. by split.
  - eexists _, _. split; [done|]. split; [constructor|]. by split.
Qed.

(** The world after a successful save holds the store in the history file. *)
Lemma saved_file_history (o : HistoryManager) (w : World) :
  history_file o ∉ readonly w →
  fs (saved o w) !! history_file o = Some (Json (history_doc (history o)))
  ∧ file_history (saved o w) (history_file o)
    = Return (PromptHistoryEntry.to_dict <$> history o).
Proof.
  intros Hw. unfold file_history, saved. rewrite decide_False by done.
  cbn [fs written]. rewrite lookup_insert_eq. split; [done|].
  unfold history_doc. by simplify_map_eq.
Qed.

(** Restarting on the file that a state was saved to gives its entries back. *)
Lemma init_after_save (o : HistoryManager) (w : World) (file : string) :
  file = history_file o →
  file ∉ readonly w →
  Forall stamped (history o) →
  history (self (init file (State o (saved o w))).2) = history o.
Proof.
  intros -> Hw Hh. rewrite init_run, load_history_run. cbn [history_file max_history].
  destruct (saved_file_history o w Hw) as [-> ->]. cbn [snd self history].
  by destruct (entries_of_to_dict (history o) (clock (saved o w)) (ticks (saved o w)) Hh)
    as [-> _].
Qed.

(** X11: the store survives a restart: when the history file can be written,
    what [add_entry], [clear_history] or [delete_entry] leave in memory is
    what a manager constructed afterwards on the same file starts with. *)
Theorem restart_keeps_store (o : HistoryManager) (w : World) :
  history_file o ∉ readonly w →
  Forall stamped (history o) →
  (∀ ui gp tid,
     history (self ((add_entry ui gp tid;; init (history_file o)) (State o w)).2)
     = history (self (add_entry ui gp tid (State o w)).2))
  ∧ history (self ((clear_history;; init (history_file o)) (State o w)).2) = []
  ∧ (∀ i, (i < length (history o))%nat →
       history (self ((delete_entry (Z.of_nat i);; init (history_file o)) (State o w)).2)
       = delete i (history o)).
Proof.
  intros Hw Hh. repeat split.
  - intros ui gp tid. unfold bind. rewrite add_entry_run.
    rewrite init_after_save; [done..|].
    cbn [history]. apply trimmed_stamped.
    constructor; [apply isoformat_nonempty | done].
  - unfold bind, clear_history at 1, set_history. run. rewrite save_history_run.
    by rewrite init_after_save.
  - intros i Hi. unfold bind. rewrite delete_entry_run by done.
    rewrite init_after_save; [done..|].
    cbn [history]. rewrite delete_take_drop.
    apply Forall_app. split; [by apply Forall_take | by apply Forall_drop].
Qed.

Lemma restart_keeps_store_witness :
  (∀ ui gp tid,
     history (self ((add_entry ui gp tid;; init "history.json") two_entries).2)
     = history (self (add_entry ui gp tid two_entries).2))
  ∧ history (self ((clear_history;; init "history.json") two_entries).2) = []
  ∧ (∀ i, (i < 2)%nat →
       history (self ((delete_entry (Z.of_nat i);; init "history.json") two_entries).2)
       = delete i (history (self two_entries))).
Proof.
  apply (restart_keeps_store (self two_entries) (world two_entries)).
  - cbn. set_solver.
  - repeat constructor; done.
Defined.

(** *** Loading *)

(** X12: loading a history file that can be read gives one entry per object
    of the file, in the file's order and however many there are (the bound is
    not applied); a field the object lacks takes its default: the empty
    string, the template id [context_aware], and for the timestamp a reading
    of the clock, which also replaces an empty timestamp. *)
Theorem load_history_entries (o : HistoryManager) (w : World)
    (raw : list (gmap string string)) :
  file_history w (history_file o) = Return raw →
  ∃ h w',
    load_history (State o w)
    = (Return tt, State (Manager (history_file o) h (max_history o)) w')
    ∧ length h = length raw
    ∧ ∀ i d, raw !! i = Some d →
        ∃ entry, h !! i = Some entry
          ∧ user_input entry = default EmptyString (d !! "user_input")
          ∧ generated_prompt entry = default EmptyString (d !! "generated_prompt")
          ∧ template_id entry = default "context_aware" (d !! "template_id")
          ∧ timestamp entry ≠ EmptyString
          ∧ (∀ ts, d !! "timestamp" = Some ts → ts ≠ EmptyString → timestamp entry = ts).
Proof.
  intros Hfile. rewrite load_history_run.
  assert (is_Some (fs w !! history_file o)) as [f ->].
  { unfold file_history in Hfile. by destruct (fs w !! history_file o). }
  rewrite Hfile. eexists _, _. split; [done|]. split; [apply length_entries_of|].
  generalize (ticks w). clear Hfile. induction raw as [|d0 raw IH]; intros t i d Hd.
  { by destruct i. }
  destruct i as [|i]; cbn in Hd.
  - injection Hd as ->. eexists. split; [done|]. cbn. repeat split.
    + unfold keeps_timestamp. destruct (d !! "timestamp") as [s|]; cbn;
        [case_bool_decide | ]; done || apply isoformat_nonempty.
    + intros ts Hts Hne. unfold keeps_timestamp. rewrite Hts.
      by rewrite bool_decide_true.
  - cbn [entries_of]. by apply IH.
Qed.

Definition empty_objects : list (gmap string string) := [∅; ∅; ∅].

Definition three_objects : World :=
  {| fs := {["history.json" := Json {["history" := JList empty_objects]}]};
     readonly := ∅; clock := λ n, Datetime 2024 1 1 0 0 n 0; ticks := 0;
     stdout := [] |}.

Lemma load_history_entries_witness :
  ∃ h w',
    load_history (State (Manager "history.json" [] 100) three_objects)
    = (Return tt, State (Manager "history.json" h 100) w')
    ∧ length h = length empty_objects
    ∧ ∀ i d, empty_objects !! i = Some d →
        ∃ entry, h !! i = Some entry
          ∧ user_input entry = default EmptyString (d !! "user_input")
          ∧ generated_prompt entry = default EmptyString (d !! "generated_prompt")
          ∧ template_id entry = default "context_aware" (d !! "template_id")
          ∧ timestamp entry ≠ EmptyString
          ∧ (∀ ts, d !! "timestamp" = Some ts → ts ≠ EmptyString → timestamp entry = ts).
Proof.
  apply (load_history_entries (Manager "history.json" [] 100) three_objects empty_objects).
  reflexivity.
Defined.

(** *** Timestamps *)

(** X13: every entry of the store has a timestamp that is not empty, and
    stays so: constructing the manager establishes it, and [add_entry],
    [delete_entry], [clear_history] and [import_history] preserve it. *)
Theorem well_stamped_operations (st : state HistoryManager) :
  well_stamped st →
  (∀ ui gp tid, well_stamped (add_entry ui gp tid st).2)
  ∧ (∀ index, well_stamped (delete_entry index st).2)
  ∧ well_stamped (clear_history st).2
  ∧ (∀ file merge, well_stamped (import_history file merge st).2)
  ∧ (∀ file, well_stamped (init file st).2).
Proof.
  intros Hst. repeat split; intros.
  - by apply add_entry_well_stamped.
  - by apply delete_entry_well_stamped.
  - by apply clear_history_well_stamped.
  - by apply import_history_well_stamped.
  - by apply init_well_stamped.
Qed.

Lemma well_stamped_operations_witness :
  (∀ ui gp tid, well_stamped (add_entry ui gp tid two_entries).2)
  ∧ (∀ index, well_stamped (delete_entry index two_entries).2)
  ∧ well_stamped (clear_history two_entries).2
  ∧ (∀ file merge, well_stamped (import_history file merge two_entries).2)
  ∧ (∀ file, well_stamped (init file two_entries).2).
Proof.
  apply (well_stamped_operations two_entries). repeat constructor; done.
Defined.

(** *** Searching *)

(** X14: the empty query matches every entry, so [search_history] returns
    the whole store for it (lowering the empty string gives the empty
    string). *)
Theorem search_history_empty_query `{Unicode} (o : HistoryManager) (w : World) :
  lower EmptyString = EmptyString →
  search_history EmptyString (State o w) = (Return (history o), State o w).
Proof.
  intros Hlower. unfold search_history. run. rewrite Hlower.
  unfold ret. repeat f_equal.
  induction (history o) as [|e h IH]; cbn [List.filter]; [done|].
  assert (∀ s, Py.str_contains EmptyString s = true) as Hall by (by intros []).
  by rewrite Hall, IH.
Qed.

Lemma search_history_empty_query_witness :
  @search_history ascii_only EmptyString two_entries
  = (Return (history (self two_entries)), two_entries).
Proof.
  apply (@search_history_empty_query ascii_only (self two_entries) (world two_entries)).
  reflexivity.
Defined.

End StoreFacts.

(** ** More of the spell check *)

Module SpellCheckFacts.
Import Py PyFacts AIPromptGenerator SpellCheckDialog SpellingFacts CorrectorFacts.
#[local] Arguments String.append !_ _ / : simpl nomatch.

(** *** Where the matches lie *)

(** Matches that lie at or after [lo] and end by [hi], each non-empty and
    each beginning after the one before has ended. *)
Fixpoint separated (lo : nat) (spans : list (nat * nat)) (hi : nat) : Prop :=
  match spans with
  | [] => True
  | m :: spans' => (lo ≤ m.1 ∧ m.1 < m.2 ∧ m.2 ≤ hi)%nat ∧ separated (S m.2) spans' hi
  end.

Lemma separated_weaken (lo lo' : nat) spans hi :
  (lo' ≤ lo)%nat → separated lo spans hi → separated lo' spans hi.
Proof. destruct spans as [|m spans]; cbn; [done|]. intros ? [(? & ? & ?) ?]. split; [lia|done]. Qed.

Lemma scan_separated `{Unicode} (text : string) (st : scanning) (pos : nat) :
  (∀ start, st = Letters start → (start < pos)%nat) →
  separated (match st with Letters start => start | _ => pos end)
            (scan st pos text) (pos + String.length text).
Proof.
  revert st pos. induction text as [|c text IH]; intros st pos Hst.
  - destruct st as [|start|]; cbn; try done. specialize (Hst start eq_refl). lia.
  - cbn [scan String.length]. replace (pos + S (String.length text))%nat
      with (S pos + String.length text)%nat by lia.
    destruct st as [|start|].
    + destruct (is_alpha c).
      * apply (IH (Letters pos)). intros ? [= <-]. lia.
      * destruct (is_word_char c).
        -- eapply separated_weaken; [|apply (IH Blocked); done]. lia.
        -- eapply separated_weaken; [|apply (IH Outside); done]. lia.
    + specialize (Hst start eq_refl). destruct (is_alpha c).
      * apply (IH (Letters start)). intros ? [= <-]. lia.
      * destruct (is_word_char c).
        -- eapply separated_weaken; [|apply (IH Blocked); done]. lia.
        -- cbn. split; [lia|]. by apply (IH Outside).
    + destruct (is_word_char c).
      * eapply separated_weaken; [|apply (IH Blocked); done]. lia.
      * eapply separated_weaken; [|apply (IH Outside); done]. lia.
Qed.

Lemma separated_elem (lo : nat) spans hi (m : nat * nat) :
  separated lo spans hi → m ∈ spans → (lo ≤ m.1 ∧ m.1 < m.2 ∧ m.2 ≤ hi)%nat.
Proof.
  revert lo. induction spans as [|m' spans IH]; intros lo; cbn.
  - by intros _ ?%elem_of_nil.
  - intros [Hm Hrest] Hin. apply elem_of_cons in Hin as [->|Hin]; [done|].
    specialize (IH _ Hrest Hin). lia.
Qed.

Lemma separated_sorted (lo : nat) spans hi :
  separated lo spans hi → StronglySorted (λ a b : nat * nat, (a.2 < b.1)%nat) spans.
Proof.
  revert lo. induction spans as [|m spans IH]; intros lo; cbn; [constructor|].
  intros [Hm Hrest]. constructor; [by eapply IH|].
  apply Forall_forall. intros m' Hin.
  pose proof (separated_elem _ _ _ _ Hrest Hin). lia.
Qed.

Lemma finditer_spans `{Unicode} (text : string) :
  separated 0 (finditer text) (String.length text).
Proof. exact (scan_separated text Outside 0 ltac:(done)). Qed.

(** X15: the matches of the word pattern, in the order [finditer] yields
    them, are non-empty spans inside the text, and each begins after the one
    before has ended: at least one character lies between two matches. *)
Theorem finditer_separated `{Unicode} (text : string) :
  (∀ m, m ∈ finditer text → (m.1 < m.2 ≤ String.length text)%nat)
  ∧ StronglySorted (λ a b : nat * nat, (a.2 < b.1)%nat) (finditer text).
Proof.
  pose proof (finditer_spans text) as Hsep. split.
  - intros m Hm. pose proof (separated_elem _ _ _ _ Hsep Hm). lia.
  - by eapply separated_sorted.
Qed.

(** *** The errors and their spans *)

Definition error_span (error : spelling_error) : Z * Z := (err_start error, err_end error).
Definition correction_span (c : correction) : Z * Z := (start c, end_ c).
Definition Z_span (m : nat * nat) : Z * Z := (Z.of_nat m.1, Z.of_nat m.2).

Lemma check_match_cases `{Unicode} (sc : SpellChecker) (text : string) (m : nat * nat) :
  check_match sc text m = []
  ∨ ∃ c cands,
      check_match sc text m = [flagged text m (c :: cands)]
      ∧ (2 < String.length (str_slice text (Z.of_nat m.1) (Z.of_nat m.2)))%nat.
Proof.
  unfold check_match, flagged.
  destruct (Nat.leb_spec (String.length (str_slice text (Z.of_nat m.1) (Z.of_nat m.2))) 2);
    [by left|].
  destruct (contains sc _); [by left|].
  destruct (candidates sc _) as [[|c cands]|]; [by left| |by left].
  right. by exists c, cands.
Qed.

Lemma error_spans_sublist `{Unicode} (sc : SpellChecker) (text : string) :
  error_span <$> find_spelling_errors sc text `sublist_of` Z_span <$> finditer text.
Proof.
  unfold find_spelling_errors. induction (finditer text) as [|m spans IH]; [done|].
  cbn [flat_map]. rewrite fmap_app, fmap_cons.
  destruct (check_match_cases sc text m) as [->|(c & cands & -> & _)].
  - by apply sublist_cons.
  - by apply sublist_skip.
Qed.

Lemma length_str_slice (text : string) (s e : nat) :
  (s ≤ e ≤ String.length text)%nat →
  String.length (str_slice text (Z.of_nat s) (Z.of_nat e)) = (e - s)%nat.
Proof.
  intros Hse. unfold str_slice. rewrite !slice_index_nonneg, !Nat2Z.id by lia.
  rewrite length_str_take, length_str_drop. lia.
Qed.

Lemma error_from_match `{Unicode} (sc : SpellChecker) (text : string)
    (error : spelling_error) :
  error ∈ find_spelling_errors sc text →
  ∃ m c cands,
    m ∈ finditer text
    ∧ (2 < String.length (str_slice text (Z.of_nat m.1) (Z.of_nat m.2)))%nat
    ∧ candidates sc (str_slice text (Z.of_nat m.1) (Z.of_nat m.2)) = Some (c :: cands)
    ∧ error = flagged text m (c :: cands).
Proof.
  unfold find_spelling_errors. rewrite list_elem_of_In, in_flat_map.
  intros (m & Hm & Herr). apply list_elem_of_In in Hm, Herr.
  apply check_match_spec in Herr as (c & cands & ? & _ & ? & ?). by exists m, c, cands.
Qed.

(** X16: every error that [find_spelling_errors] reports names a span inside
    the text that holds exactly the reported word, of three characters or
    more; the errors come in the order of their positions, each beginning
    after the one before has ended. *)
Theorem errors_located `{Unicode} (sc : SpellChecker) (text : string) :
  (∀ error, error ∈ find_spelling_errors sc text →
     0 ≤ err_start error
     ∧ err_end error ≤ Z.of_nat (String.length text)
     ∧ word error = str_slice text (err_start error) (err_end error)
     ∧ Z.of_nat (String.length (word error)) = err_end error - err_start error
     ∧ 3 ≤ err_end error - err_start error)
  ∧ StronglySorted (λ a b, err_end a < err_start b) (find_spelling_errors sc text).
Proof.
  pose proof (finditer_spans text) as Hsep.
  pose proof (separated_sorted _ _ _ Hsep) as Hsorted. split.
  - intros error Herr.
    apply error_from_match in Herr as (m & c & cands & Hm & Hlen & _ & ->).
    pose proof (separated_elem _ _ _ _ Hsep Hm) as Hin.
    cbn [flagged err_start err_end word].
    rewrite length_str_slice in * by lia. repeat split; lia.
  - assert (StronglySorted (λ a b : Z * Z, a.2 < b.1) (Z_span <$> finditer text)) as Hz.
    { apply (StronglySorted_fmap Z_span (λ a b : nat * nat, (a.2 < b.1)%nat)); [|done].
      intros a b. cbn. lia. }
    pose proof (error_spans_sublist sc text) as Hsub.
    revert Hz Hsub. generalize (Z_span <$> finditer text).
    induction (find_spelling_errors sc text) as [|error errors IH]; intros spans Hz Hsub;
      [constructor|].
    rewrite fmap_cons in Hsub. apply sublist_cons_l in Hsub as (k1 & k2 & -> & Hsub).
    apply StronglySorted_app in Hz as (_ & _ & Hz). inversion Hz as [|? ? Hk2 Hall]; subst.
    constructor; [by eapply IH|].
    apply Forall_forall. intros error' Hin'.
    assert (error_span error' ∈ k2) as Hk.
    { eapply elem_of_sublist; [|done]. apply list_elem_of_fmap. by exists error'. }
    rewrite Forall_forall in Hall. by apply (Hall _ Hk).
Qed.

(** *** What a match is made of *)

(** No [\w] character stands directly before position [s] of the text. *)
Definition boundary_before `{Unicode} (text : string) (s : nat) : Prop :=
  ∀ c, (0 < s)%nat → String.get (s - 1) text = Some c → is_word_char c = false.

Definition letters_between (text : string) (s e : nat) : Prop :=
  ∀ i, (s ≤ i < e)%nat → ∃ c, String.get i text = Some c ∧ is_alpha c = true.

Definition word_match `{Unicode} (text : string) (m : nat * nat) : Prop :=
  letters_between text m.1 m.2
  ∧ boundary_before text m.1
  ∧ ∀ c, String.get m.2 text = Some c → is_word_char c = false.

(** What the scan knows of the text read so far. *)
Definition scanned `{Unicode} (st : scanning) (pre : string) : Prop :=
  match st with
  | Outside => boundary_before pre (String.length pre)
  | Letters start =>
      (start < String.length pre)%nat
      ∧ letters_between pre start (String.length pre)
      ∧ boundary_before pre start
  | Blocked => True
  end.

Lemma get_snoc_last (pre : string) (c : ascii) (rest : string) :
  String.get (String.length pre) (pre +:+ String c rest) = Some c.
Proof. induction pre as [|c' pre IH]; cbn; done. Qed.

Lemma get_app_l (pre rest : string) (i : nat) :
  (i < String.length pre)%nat → String.get i (pre +:+ rest) = String.get i pre.
Proof. intros Hi. symmetry. by apply String.append_correct1. Qed.

Lemma get_length_None (s : string) : String.get (String.length s) s = None.
Proof. induction s as [|c s IH]; cbn; done. Qed.

Lemma app_snoc (pre : string) (c : ascii) (rest : string) :
  pre +:+ String c rest = (pre +:+ String c EmptyString) +:+ rest.
Proof. by rewrite app_assoc. Qed.

Lemma length_snoc (pre : string) (c : ascii) :
  String.length (pre +:+ String c EmptyString) = S (String.length pre).
Proof. induction pre as [|c' pre IH]; cbn; [done | by rewrite IH]. Qed.

Lemma boundary_before_app `{Unicode} (pre rest : string) (s : nat) :
  (s ≤ String.length pre)%nat →
  boundary_before pre s → boundary_before (pre +:+ rest) s.
Proof.
  intros Hs Hpre c Hpos Hc. apply (Hpre c Hpos). by rewrite get_app_l in Hc by lia.
Qed.

Lemma letters_between_app (pre rest : string) (s e : nat) :
  (e ≤ String.length pre)%nat →
  letters_between pre s e → letters_between (pre +:+ rest) s e.
Proof.
  intros He Hpre i Hi. destruct (Hpre i Hi) as (c & Hc & Halpha).
  exists c. by rewrite get_app_l by lia.
Qed.

Lemma is_alpha_word `{Unicode} (c : ascii) : is_alpha c = true → is_word_char c = true.
Proof. unfold is_word_char. by intros ->. Qed.

Lemma scanned_step `{Unicode} (st : scanning) (pre : string) (c : ascii) :
  scanned st pre →
  scanned (match st with
           | Outside =>
               if is_alpha c then Letters (String.length pre)
               else if is_word_char c then Blocked else Outside
           | Letters start =>
               if is_alpha c then Letters start
               else if is_word_char c then Blocked else Outside
           | Blocked => if is_word_char c then Blocked else Outside
           end)
          (pre +:+ String c EmptyString).
Proof.
  assert (is_word_char c = false →
          boundary_before (pre +:+ String c EmptyString)
            (String.length (pre +:+ String c EmptyString))) as Hend.
  { intros Hc c' _. rewrite length_snoc. cbn. rewrite Nat.sub_0_r, get_snoc_last.
    by intros [= <-]. }
  assert (letters_between (pre +:+ String c EmptyString) (String.length pre)
            (String.length (pre +:+ String c EmptyString)) ∨ is_alpha c = false) as Hlast.
  { destruct (is_alpha c) eqn:Hc; [left|by right].
    intros i Hi. rewrite length_snoc in Hi. replace i with (String.length pre) by lia.
    exists c. by rewrite get_snoc_last. }
  intros Hst. destruct st as [|start|]; cbn [scanned] in *.
  - destruct (is_alpha c) eqn:Halpha.
    + cbn [scanned]. rewrite length_snoc. split; [lia|]. split.
      * destruct Hlast as [Hlast|]; [|done]. by rewrite length_snoc in Hlast.
      * by apply boundary_before_app.
    + destruct (is_word_char c) eqn:Hword; [done|]. by apply Hend.
  - destruct Hst as (Hlt & Hletters & Hbefore). destruct (is_alpha c) eqn:Halpha.
    + cbn [scanned]. rewrite length_snoc. split; [lia|]. split.
      * intros i Hi. destruct (decide (i < String.length pre)%nat) as [Hi'|Hi'].
        -- destruct (Hletters i ltac:(lia)) as (c' & Hc' & ?). exists c'.
           by rewrite get_app_l.
        -- replace i with (String.length pre) by lia. exists c.
           by rewrite get_snoc_last.
      * apply boundary_before_app; [lia | done].
    + destruct (is_word_char c) eqn:Hword; [done|]. by apply Hend.
  - destruct (is_word_char c) eqn:Hword; [done|]. by apply Hend.
Qed.

Lemma scan_sound `{Unicode} (rest : string) :
  ∀ (pre : string) (st : scanning),
    scanned st pre →
    ∀ m, m ∈ scan st (String.length pre) rest → word_match (pre +:+ rest) m.
Proof.
  induction rest as [|c rest IH]; intros pre st Hst m Hm.
  - rewrite app_nil_r. destruct st as [|start|]; cbn in Hm;
      try by apply elem_of_nil in Hm.
    apply list_elem_of_singleton in Hm as ->. destruct Hst as (? & ? & ?).
    repeat split; try done. cbn. by rewrite get_length_None.
  - rewrite app_snoc. pose proof (scanned_step st pre c Hst) as Hstep.
    cbn [scan] in Hm. rewrite <- (length_snoc pre c) in Hm.
    destruct st as [|start|].
    + by eapply IH.
    + destruct (is_alpha c) eqn:Halpha; [by eapply IH|].
      destruct (is_word_char c) eqn:Hword; [by eapply IH|].
      apply elem_of_cons in Hm as [->|Hm]; [|by eapply IH].
      destruct Hst as (Hlt & Hletters & Hbefore). rewrite <- app_snoc.
      split; [|split]; cbn [fst snd].
      * by apply letters_between_app.
      * apply boundary_before_app; [lia | done].
      * intros c'. rewrite get_snoc_last. by intros [= <-].
    + by eapply IH.
Qed.

(** X17: a match of the word pattern is a run of ASCII letters that has no
    [\w] character directly before it and none directly after it. *)
Theorem finditer_word_match `{Unicode} (text : string) (m : nat * nat) :
  m ∈ finditer text →
  (∀ i, (m.1 ≤ i < m.2)%nat → ∃ c, String.get i text = Some c ∧ is_alpha c = true)
  ∧ (∀ c, (0 < m.1)%nat → String.get (m.1 - 1) text = Some c → is_word_char c = false)
  ∧ (∀ c, String.get m.2 text = Some c → is_word_char c = false).
Proof.
  intros Hm. apply (scan_sound text EmptyString Outside); [|done].
  intros c Hpos. cbn in Hpos. lia.
Qed.

Lemma finditer_word_match_witness :
  (∀ i, (4 ≤ i < 8)%nat →
     ∃ c, String.get i "The qick fox" = Some c ∧ is_alpha c = true)
  ∧ (∀ c, (0 < 4)%nat → String.get (4 - 1) "The qick fox" = Some c →
       @is_word_char ascii_only c = false)
  ∧ (∀ c, String.get 8 "The qick fox" = Some c → @is_word_char ascii_only c = false).
Proof.
  apply (@finditer_word_match ascii_only "The qick fox" (4, 8)%nat).
  apply (bool_decide_unpack _). reflexivity.
Defined.

(** *** The context of an error *)

Lemma str_drop_drop (i j : nat) (s : string) :
  str_drop i (str_drop j s) = str_drop (j + i) s.
Proof.
  revert s. induction j as [|j IH]; intros s; [done|].
  destruct s as [|c s]; cbn; [by destruct i | apply IH].
Qed.

Lemma str_slice_split (s : string) (a m b : nat) :
  (a ≤ m ≤ b)%nat →
  str_take (b - a) (str_drop a s)
  = str_take (m - a) (str_drop a s) +:+ str_take (b - m) (str_drop m s).
Proof.
  intros Hamb. rewrite <- (str_take_drop_app (m - a) (b - a) (str_drop a s)) by lia.
  rewrite str_drop_drop.
  replace (b - a - (m - a))%nat with (b - m)%nat by lia.
  by replace (a + (m - a))%nat with m by lia.
Qed.

Lemma length_str_take_le (n : nat) (s : string) : (String.length (str_take n s) ≤ n)%nat.
Proof. rewrite length_str_take. lia. Qed.

Lemma length_app (s1 s2 : string) :
  String.length (s1 +:+ s2) = (String.length s1 + String.length s2)%nat.
Proof. induction s1 as [|c s1 IH]; cbn; [done | by rewrite IH]. Qed.

(** X18: the context [get_word_context] gives for a span inside the text
    holds the text of the span, with at most 23 characters before it and at
    most 23 after it (20 of the text and the ellipsis). *)
Theorem get_word_context_around (text : string) (s e : nat) :
  (s ≤ e ≤ String.length text)%nat →
  ∃ before after,
    get_word_context text (Z.of_nat s) (Z.of_nat e)
    = before +:+ str_slice text (Z.of_nat s) (Z.of_nat e) +:+ after
    ∧ (String.length before ≤ 23)%nat
    ∧ (String.length after ≤ 23)%nat.
Proof.
  intros Hse. unfold get_word_context, str_slice.
  rewrite !slice_index_nonneg, !Nat2Z.id by lia.
  set (a := Z.to_nat (Z.max 0 (Z.of_nat s - 20))).
  set (b := Z.to_nat (Z.min (Z.of_nat (String.length text)) (Z.of_nat e + 20))).
  assert (a ≤ s ∧ s - a ≤ 20 ∧ e ≤ b ∧ b - e ≤ 20)%nat as (Ha & Ha' & Hb & Hb') by lia.
  rewrite (str_slice_split text a s b), (str_slice_split text s e b) by lia.
  set (left := str_take (s - a) (str_drop a text)).
  set (right := str_take (b - e) (str_drop e text)).
  set (mid := str_take (e - s) (str_drop s text)).
  assert (String.length left ≤ 20)%nat
    by (pose proof (length_str_take_le (s - a) (str_drop a text)); subst left; lia).
  assert (String.length right ≤ 20)%nat
    by (pose proof (length_str_take_le (b - e) (str_drop e text)); subst right; lia).
  destruct (_ >? 0), (_ <? _).
  - exists ("..." +:+ left), (right +:+ "...").
    rewrite !length_app, !app_assoc. cbn [String.length].
    repeat split; first [lia | done].
  - exists ("..." +:+ left), right.
    rewrite !length_app, !app_assoc. cbn [String.length].
    repeat split; first [lia | done].
  - exists left, (right +:+ "...").
    rewrite !length_app, !app_assoc. cbn [String.length].
    repeat split; first [lia | done].
  - exists left, right. repeat split; first [lia | done].
Qed.

Lemma get_word_context_around_witness :
  ∃ before after,
    get_word_context "The qick fox" (Z.of_nat 4) (Z.of_nat 8)
    = before +:+ str_slice "The qick fox" (Z.of_nat 4) (Z.of_nat 8) +:+ after
    ∧ (String.length before ≤ 23)%nat
    ∧ (String.length after ≤ 23)%nat.
Proof. apply (get_word_context_around "The qick fox" 4 8). cbn. lia. Defined.

(** *** The corrections that the errors give *)

Lemma chain_weaken (lo lo' : Z) (cs : list correction) (hi : Z) :
  lo' ≤ lo → chain lo cs hi → chain lo' cs hi.
Proof. destruct cs as [|c cs]; cbn; [lia|]. intros ? (? & ? & ?). repeat split; [lia|done..]. Qed.

Lemma chain_of_spans (spans : list (nat * nat)) :
  ∀ (lo hi : nat) (cs : list correction),
    separated lo spans hi → (lo ≤ hi)%nat →
    correction_span <$> cs `sublist_of` Z_span <$> spans →
    chain (Z.of_nat lo) cs (Z.of_nat hi) ∧ Forall (λ c, start c < end_ c) cs.
Proof.
  induction spans as [|m spans IH]; intros lo hi cs Hsep Hlo Hsub.
  - apply sublist_nil_r, fmap_nil_inv in Hsub as ->. cbn. split; [lia | constructor].
  - cbn in Hsep. destruct Hsep as [(Hm1 & Hm2 & Hm3) Hsep].
    apply (separated_weaken _ m.2) in Hsep; [|lia].
    rewrite fmap_cons in Hsub. apply sublist_cons_r in Hsub as [Hsub|(l' & Heq & Hsub)].
    + destruct (IH _ _ _ Hsep Hm3 Hsub) as [Hchain Hne]. split; [|done].
      eapply chain_weaken; [|done]. lia.
    + destruct cs as [|c cs]; [done|]. rewrite fmap_cons in Heq.
      injection Heq as Hs He <-. destruct (IH _ _ _ Hsep Hm3 Hsub) as [Hchain Hne].
      split; [|constructor; [lia | done]].
      cbn. repeat split; [lia | lia | congruence].
Qed.

Lemma auto_corrections_spans (errors : list spelling_error) :
  correction_span <$> auto_corrections errors = error_span <$> errors.
Proof. unfold auto_corrections. by rewrite <- list_fmap_compose. Qed.

Lemma corrections_to_apply_spans (errors : list spelling_error) (ignored : gset nat) :
  ∀ idx, correction_span <$> corrections_to_apply idx errors ignored
         `sublist_of` error_span <$> errors.
Proof.
  induction errors as [|error errors IH]; intros idx; [done|].
  cbn [corrections_to_apply]. rewrite fmap_app, fmap_cons.
  case_decide; [destruct (suggestions error)|]; cbn [fmap list_fmap app].
  - by apply sublist_cons.
  - by apply sublist_skip.
  - by apply sublist_cons.
Qed.

(** Corrections that lie in the text one after the other, none of them
    empty, are applied as the one pass over the text applies them. *)
Lemma apply_corrections_chain (text : string) (cs : list correction) :
  chain 0 cs (Z.of_nat (String.length text)) →
  Forall (λ c, start c < end_ c) cs →
  apply_corrections text cs = splice text 0 cs.
Proof.
  intros Hchain Hne. unfold apply_corrections.
  rewrite (sorted_desc_reverse cs cs _ _ (reflexivity _) Hchain)
    by (by eapply chain_nonempty_NoDup).
  rewrite <- (str_take_all (String.length text) text) at 1 by done.
  rewrite <- (app_nil_r (str_take _ text)).
  rewrite fold_walk, app_nil_r by done.
  by apply (walk_splice text cs 0).
Qed.

Lemma spell_corrections_chain `{Unicode} (sc : SpellChecker) (text : string)
    (cs : list correction) :
  correction_span <$> cs `sublist_of` error_span <$> find_spelling_errors sc text →
  chain 0 cs (Z.of_nat (String.length text)) ∧ Forall (λ c, start c < end_ c) cs.
Proof.
  intros Hsub. apply (chain_of_spans (finditer text) 0 (String.length text)).
  - apply (scan_separated text Outside 0). done.
  - lia.
  - etrans; [done | apply error_spans_sublist].
Qed.

Lemma auto_corrections_applied `{Unicode} (sc : SpellChecker) (text : string) :
  apply_corrections text (auto_corrections (find_spelling_errors sc text))
  = splice text 0 (auto_corrections (find_spelling_errors sc text)).
Proof.
  apply apply_corrections_chain; apply (spell_corrections_chain sc text);
    by rewrite auto_corrections_spans.
Qed.

Lemma corrections_to_apply_applied `{Unicode} (sc : SpellChecker) (text : string)
    (ignored : gset nat) :
  apply_corrections text (corrections_to_apply 0 (find_spelling_errors sc text) ignored)
  = splice text 0 (corrections_to_apply 0 (find_spelling_errors sc text) ignored).
Proof.
  apply apply_corrections_chain; apply (spell_corrections_chain sc text);
    apply corrections_to_apply_spans.
Qed.

Lemma corrections_to_apply_all `{Unicode} (sc : SpellChecker) (text : string) :
  corrections_to_apply 0 (find_spelling_errors sc text) ∅
  = auto_corrections (find_spelling_errors sc text).
Proof.
  assert (∀ error, error ∈ find_spelling_errors sc text → suggestions error ≠ [])
    as Hsug.
  { intros error (m & c & cands & _ & _ & _ & ->)%error_from_match. done. }
  revert Hsug. generalize 0%nat.
  induction (find_spelling_errors sc text) as [|error errors' IH]; intros idx Hsug;
    [done|].
  cbn [corrections_to_apply auto_corrections fmap list_fmap].
  rewrite decide_True by set_solver.
  destruct (suggestions error) as [|first rest] eqn:Hs.
  - destruct (Hsug error); [left | done].
  - cbn. f_equal. apply IH. intros error' Hin. apply Hsug. by right.
Qed.

(** The dialog after the rows of the given indices were ignored. *)
Lemma ignore_single_run (ignored : list nat) (d : SpellCheckDialog) :
  foldr ignore_single d ignored
  = Dialog (errors d) (corrections d) (list_to_set ignored ∪ ignored_indices d)
           (input_text d).
Proof.
  induction ignored as [|idx ignored IH]; cbn [foldr].
  - destruct d. cbn. by rewrite (left_id_L ∅ (∪)).
  - rewrite IH. unfold ignore_single. cbn. by rewrite (assoc_L (∪)).
Qed.

(** X19: no positional drift when the corrections are applied at once.  For
    an input area in whose content the checker finds errors,
    [auto_spell_check] leaves the content with each misspelled word replaced
    by its first suggestion and all the rest as it was; [spell_check_prompt]
    opens a dialog, and after any rows were ignored (none applied one by
    one) [apply_all] leaves the content with the words of the other rows
    replaced and all the rest as it was, or leaves the input area alone when
    every row was ignored; with nothing ignored the two give the same. *)
Theorem spell_corrections_applied `{Unicode} (sc : SpellChecker) (area : string) :
  let text := input_content area in
  let found := find_spelling_errors sc text in
  found ≠ [] →
  auto_spell_check (Some sc) area = splice text 0 (auto_corrections found)
  ∧ (∃ d,
       spell_check_prompt (Some sc) area = Some d
       ∧ ∀ ignored,
           let to_apply := corrections_to_apply 0 found (list_to_set ignored) in
           (to_apply ≠ [] →
            input_text (apply_all (foldr ignore_single d ignored))
            = splice text 0 to_apply)
           ∧ (to_apply = [] →
              input_text (apply_all (foldr ignore_single d ignored)) = area))
  ∧ corrections_to_apply 0 found ∅ = auto_corrections found.
Proof.
  intros text found Hfound.
  assert (text ≠ EmptyString) as Htext.
  { intros Heq. apply Hfound. subst found. by rewrite Heq. }
  subst found. split; [|split].
  - unfold auto_spell_check. fold text. rewrite decide_False by done.
    rewrite <- (auto_corrections_applied sc text).
    by destruct (find_spelling_errors sc text).
  - exists (Dialog (find_spelling_errors sc text) [] ∅ area). split.
    { unfold spell_check_prompt. fold text. rewrite decide_False by done.
      by destruct (find_spelling_errors sc text). }
    intros ignored to_apply. rewrite ignore_single_run. unfold apply_all.
    cbn [errors corrections ignored_indices input_text].
    rewrite (right_id_L ∅ (∪)). fold to_apply. split.
    + intros Hne. subst to_apply.
      rewrite <- (corrections_to_apply_applied sc text).
      by destruct (corrections_to_apply _ _ _).
    + by intros ->.
  - apply corrections_to_apply_all.
Qed.

(** A checker that knows no word and has a candidate for two misspellings. *)
Definition two_misspellings : SpellChecker :=
  {| contains := λ _, false;
     candidates := λ word,
       if decide (word = "qick") then Some ["quick"]
       else if decide (word = "foxx") then Some ["fox"]
       else None |}.

Lemma spell_corrections_applied_witness :
  let text := input_content "qick foxx" in
  let found := @find_spelling_errors ascii_only two_misspellings text in
  @auto_spell_check ascii_only (Some two_misspellings) "qick foxx"
  = splice text 0 (auto_corrections found)
  ∧ (∃ d,
       @spell_check_prompt ascii_only (Some two_misspellings) "qick foxx" = Some d
       ∧ ∀ ignored,
           let to_apply := corrections_to_apply 0 found (list_to_set ignored) in
           (to_apply ≠ [] →
            input_text (apply_all (foldr ignore_single d ignored))
            = splice text 0 to_apply)
           ∧ (to_apply = [] →
              input_text (apply_all (foldr ignore_single d ignored)) = "qick foxx"))
  ∧ corrections_to_apply 0 found ∅ = auto_corrections found.
Proof.
  apply (@spell_corrections_applied ascii_only two_misspellings "qick foxx").
  vm_compute. discriminate.
Defined.

(** Once a row was applied on its own, the spans of the rows after it are
    those of a text that the input area no longer holds: [apply_all] then
    replaces other characters than the misspelled word. *)
Example apply_single_then_apply_all :
  ∃ d error,
    @spell_check_prompt ascii_only (Some two_misspellings) "qick foxx" = Some d
    ∧ errors d !! 0%nat = Some error
    ∧ input_text (apply_single 0 error "quick" d) = "quick foxx"
    ∧ input_text (apply_all (apply_single 0 error "quick" d)) = "quickfoxx".
Proof. eexists _, _. split; [reflexivity|]. split; [reflexivity|]. by vm_compute. Qed.

End SpellCheckFacts.

(** ** More of the conversation memory *)

Module MemoryFacts.
Import AIPromptGenerator ConversationFacts.

Lemma length_most_recent {A} (n : nat) (l : list A) :
  length (most_recent n l) = Nat.min n (length l).
Proof. unfold most_recent. rewrite length_drop. lia. Qed.

Lemma most_recent_last {A} (n : nat) (l : list A) (x : A) :
  (0 < n)%nat → last (most_recent n (l ++ [x])) = Some x.
Proof.
  intros Hn. unfold most_recent. rewrite length_app. cbn [length].
  rewrite drop_app_le by lia. apply last_snoc.
Qed.

(** The messages that the conversation file holds, if it is a JSON object
    with a list of messages. *)
Definition file_messages (w : World) (file : string) : option (list (gmap string string)) :=
  match fs w !! file with
  | Some (Json doc) =>
      match doc !! "messages" with
      | Some (JList l) => Some l
      | _ => None
      end
  | _ => None
  end.

(** X20: with a positive [max_conversation_turns], [add_to_conversation]
    returns normally and leaves in memory the most recent
    [2 * max_conversation_turns] messages of the log with the new message at
    its end, whether or not the file can be written; when the file can be
    written it holds the same messages as the memory. *)
Theorem add_to_conversation_keeps (o : AIPromptGenerator) (w : World)
    (role content : string) :
  0 < max_conversation_turns o →
  ∃ st',
    add_to_conversation role content (State o w) = (Return tt, st')
    ∧ conversation_history (self st')
      = most_recent (Z.to_nat (max_conversation_turns o * 2))
          (conversation_history o ++ [message (role, content)])
    ∧ last (conversation_history (self st')) = Some (message (role, content))
    ∧ Z.of_nat (length (conversation_history (self st'))) ≤ max_conversation_turns o * 2
    ∧ (conversation_file o ∉ readonly w →
       file_messages (world st') (conversation_file o)
       = Some (conversation_history (self st'))).
Proof.
  intros Hmax. eexists. split; [apply (say_run (role, content))|].
  cbn [self world conversation_history conversation_file max_conversation_turns].
  rewrite kept_most_recent by done. split; [done|]. split; [|split].
  - apply most_recent_last. lia.
  - rewrite length_most_recent. lia.
  - intros Hw. unfold file_messages, saved.
    cbn [conversation_file conversation_history]. rewrite decide_False by done.
    cbn [fs written]. rewrite lookup_insert_eq. unfold conversation_doc.
    by simplify_map_eq.
Qed.

Lemma add_to_conversation_keeps_witness :
  ∃ st',
    add_to_conversation "user" "hello" fresh = (Return tt, st')
    ∧ conversation_history (self st')
      = most_recent (Z.to_nat (50 * 2)) ([] ++ [message ("user", "hello")])
    ∧ last (conversation_history (self st')) = Some (message ("user", "hello"))
    ∧ Z.of_nat (length (conversation_history (self st'))) ≤ 50 * 2
    ∧ ("conversation.json" ∉ readonly (world fresh) →
       file_messages (world st') "conversation.json"
       = Some (conversation_history (self st'))).
Proof.
  apply (add_to_conversation_keeps (self fresh) (world fresh) "user" "hello"). done.
Defined.

(** X21: [clear_conversation] returns normally and empties the log in
    memory, whatever the bound; when the conversation file can be written it
    then holds an empty list of messages. *)
Theorem clear_conversation_empties (o : AIPromptGenerator) (w : World) :
  ∃ st',
    clear_conversation (State o w) = (Return tt, st')
    ∧ conversation_history (self st') = []
    ∧ (conversation_file o ∉ readonly w →
       file_messages (world st') (conversation_file o) = Some []).
Proof.
  unfold clear_conversation, set_conversation_history. run.
  rewrite save_conversation_run.
  cbn [conversation_history conversation_file max_conversation_turns].
  assert (kept [] (max_conversation_turns o) = []) as ->.
  { unfold kept, Py.slice_from. destruct (_ >? _); [apply drop_nil | done]. }
  eexists. split; [done|]. split; [done|].
  intros Hw. unfold file_messages, saved.
  cbn [self world conversation_file conversation_history]. rewrite decide_False by done.
  cbn [fs written]. rewrite lookup_insert_eq. unfold conversation_doc.
  by simplify_map_eq.
Qed.

(** *** An exchange with the API *)

(** What the client answers to the messages, [None] when there is no client
    or the call raises. *)
Definition request (client : api_client) (messages : list (gmap string string))
  : option string :=
  match client with
  | OpenAI create => create (message ("system", system_prompt) :: messages)
  | Anthropic create => create system_prompt messages
  | NoClient => None
  end.

(** The answer to the log followed by the user's input, [None] also when a
    message of the log lacks its role or its content. *)
Definition exchange (client : api_client) (h : list (gmap string string))
    (user_input : string) : option string :=
  match copy_messages h with
  | Some copied => request client (copied ++ [message ("user", user_input)])
  | None => None
  end.

(** The messages that [add_to_conversation] appends are sent as they are. *)
Lemma copy_messages_message (msgs : list (string * string)) :
  copy_messages (message <$> msgs) = Some (message <$> msgs).
Proof.
  induction msgs as [|m msgs IH]; [done|].
  rewrite fmap_cons. cbn [copy_messages]. rewrite IH. unfold message at 1 2.
  by simplify_map_eq.
Qed.

Lemma two_says_run {A} (m1 m2 : string * string) (k : M AIPromptGenerator A)
    (o : AIPromptGenerator) (w : World) :
  0 < max_conversation_turns o →
  ∃ w',
    (say m1;; say m2;; k) (State o w)
    = k (State (Generator (most_recent (Z.to_nat (max_conversation_turns o * 2))
                             (conversation_history o ++ [message m1; message m2]))
                          (conversation_file o) (max_conversation_turns o)) w')
    ∧ (conversation_file o ∉ readonly w →
       file_messages w' (conversation_file o)
       = Some (most_recent (Z.to_nat (max_conversation_turns o * 2))
                 (conversation_history o ++ [message m1; message m2]))).
Proof.
  intros Hmax. eexists. split.
  - unfold bind. rewrite !say_run.
    cbn [conversation_history conversation_file max_conversation_turns].
    rewrite !kept_most_recent, most_recent_app, <- List.app_assoc by done.
    reflexivity.
  - intros Hw. unfold file_messages. unfold saved at 1.
    cbn [conversation_file conversation_history].
    rewrite decide_False by (by rewrite saved_readonly).
    cbn [fs written]. rewrite lookup_insert_eq. unfold conversation_doc.
    by simplify_map_eq.
Qed.

(** X24: with a positive [max_conversation_turns], [generate_ml_prompt]
    returns normally.  When the client answers the log followed by the user's
    input, the answer is returned and the log becomes the most recent
    [2 * max_conversation_turns] messages of the old log, the user's input and
    the answer, in this order, also on disk when the file can be written.
    When there is no client, the call raises or a message of the log lacks
    its role or content, the input is returned as it is and neither the log
    nor any file changes. *)
Theorem generate_ml_prompt_exchange (client : api_client) (o : AIPromptGenerator)
    (w : World) (user_input : string) :
  0 < max_conversation_turns o →
  ∃ reply st',
    generate_ml_prompt client user_input (State o w) = (Return reply, st')
    ∧ (∀ ai_response,
         exchange client (conversation_history o) user_input = Some ai_response →
         reply = ai_response
         ∧ conversation_history (self st')
           = most_recent (Z.to_nat (max_conversation_turns o * 2))
               (conversation_history o
                ++ [message ("user", user_input); message ("assistant", ai_response)])
         ∧ (conversation_file o ∉ readonly w →
            file_messages (world st') (conversation_file o)
            = Some (conversation_history (self st'))))
    ∧ (exchange client (conversation_history o) user_input = None →
       reply = user_input ∧ self st' = o ∧ fs (world st') = fs w).
Proof.
  intros Hmax. unfold generate_ml_prompt, exchange, request, build_universal_prompt.
  unfold bind at 1, get_self at 1. cbn [self].
  assert (∀ st : state AIPromptGenerator,
            ∃ reply st', (print "API Error";; ret user_input) st = (Return reply, st')
              ∧ reply = user_input ∧ self st' = self st
              ∧ fs (world st') = fs (world st)) as Hfallback.
  { intros [o0 w0]. run. by eexists _, _. }
  assert (∀ ai_response,
            ∃ reply st',
              (add_to_conversation "user" user_input;;
               add_to_conversation "assistant" ai_response;;
               ret ai_response) (State o w) = (Return reply, st')
              ∧ reply = ai_response
              ∧ conversation_history (self st')
                = most_recent (Z.to_nat (max_conversation_turns o * 2))
                    (conversation_history o
                     ++ [message ("user", user_input); message ("assistant", ai_response)])
              ∧ (conversation_file o ∉ readonly w →
                 file_messages (world st') (conversation_file o)
                 = Some (conversation_history (self st')))) as Hrecorded.
  { intros ai_response.
    destruct (two_says_run ("user", user_input) ("assistant", ai_response)
                (ret ai_response) o w Hmax) as (w' & Hrun & Hfile).
    unfold say in Hrun. cbn [fst snd] in Hrun. rewrite Hrun. unfold ret.
    by eexists _, _. }
  destruct (copy_messages (conversation_history o)) as [copied|].
  - unfold message. cbn [fst snd].
    destruct client as [create|create|].
    + destruct (create _) as [ai_response|].
      * destruct (Hrecorded ai_response) as (reply & st' & -> & -> & Hh & Hfile).
        exists ai_response, st'. split; [done|]. split; [|done].
        by intros ? [= <-].
      * destruct (Hfallback (State o w)) as (reply & st' & -> & -> & Hself & Hfs).
        exists user_input, st'. split; [done|]. by split.
    + destruct (create _ _) as [ai_response|].
      * destruct (Hrecorded ai_response) as (reply & st' & -> & -> & Hh & Hfile).
        exists ai_response, st'. split; [done|]. split; [|done].
        by intros ? [= <-].
      * destruct (Hfallback (State o w)) as (reply & st' & -> & -> & Hself & Hfs).
        exists user_input, st'. split; [done|]. by split.
    + exists user_input, (State o w). by split.
  - destruct (Hfallback (State o w)) as (reply & st' & -> & -> & Hself & Hfs).
    exists user_input, st'. split; [done|]. by split.
Qed.

Lemma generate_ml_prompt_exchange_witness :
  ∃ reply st',
    generate_ml_prompt (Anthropic (λ _ messages, Some "Summarize the report."))
      "summarize this" fresh = (Return reply, st')
    ∧ reply = "Summarize the report."
    ∧ conversation_history (self st')
      = [message ("user", "summarize this");
         message ("assistant", "Summarize the report.")].
Proof.
  destruct (generate_ml_prompt_exchange
              (Anthropic (λ _ messages, Some "Summarize the report."))
              (self fresh) (world fresh) "summarize this")
    as (reply & st' & Hrun & Hanswered & _); [done|].
  exists reply, st'. split; [exact Hrun|].
  destruct (Hanswered "Summarize the report." eq_refl) as (-> & -> & _). done.
Defined.

End MemoryFacts.

(** ** Sanitized input and display text *)

Module TextFacts.
Import Py PyFacts PyStr AIPromptGenerator.
#[local] Arguments String.append !_ _ / : simpl nomatch.

(** Every character of the string satisfies [P]. *)
Fixpoint all_chars (P : ascii → Prop) (s : string) : Prop :=
  match s with
  | EmptyString => True
  | String c s' => P c ∧ all_chars P s'
  end.

Lemma all_chars_app (P : ascii → Prop) (s1 s2 : string) :
  all_chars P (s1 +:+ s2) ↔ all_chars P s1 ∧ all_chars P s2.
Proof. induction s1 as [|c s1 IH]; cbn; [tauto | rewrite IH; tauto]. Qed.

Lemma all_chars_lstrip P s : all_chars P s → all_chars P (lstrip s).
Proof.
  induction s as [|c s IH]; cbn; [done|]. intros [? ?].
  destruct (is_space c); [auto | done].
Qed.

Lemma all_chars_rstrip P s : all_chars P s → all_chars P (rstrip s).
Proof.
  induction s as [|c s IH]; cbn; [done|]. intros [Hc Hs]. specialize (IH Hs).
  destruct (rstrip s); [by destruct (is_space c) | done].
Qed.

Lemma all_chars_strip P s : all_chars P s → all_chars P (strip s).
Proof. intros. by apply all_chars_lstrip, all_chars_rstrip. Qed.

Lemma all_chars_replace_from P old new s :
  all_chars P new → all_chars P s → ∀ skip, all_chars P (replace_from old new skip s).
Proof.
  intros Hnew. induction s as [|c s IH]; intros Hs skip; [done|].
  destruct Hs as [Hc Hs]. cbn [replace_from]. destruct skip as [|skip]; [|by apply IH].
  destruct (String.prefix old (String c s)).
  - apply all_chars_app. split; [done | by apply IH].
  - split; [done | by apply IH].
Qed.

(** Replacing one character by a string without it leaves none of it. *)
Lemma replace_char_gone (c : ascii) (new s : string) :
  all_chars (λ x, x ≠ c) new →
  all_chars (λ x, x ≠ c) (replace (String c EmptyString) new s).
Proof.
  intros Hnew. unfold replace. induction s as [|c' s IH]; [done|].
  cbn [replace_from String.length Nat.sub].
  destruct (String.prefix (String c EmptyString) (String c' s)) eqn:Hpre.
  - apply all_chars_app. by split.
  - split; [|done]. intros ->. cbn in Hpre.
    destruct (ascii_dec c c); [by destruct s | done].
Qed.

Lemma all_chars_split P sep s : all_chars P s → Forall (all_chars P) (split sep s).
Proof.
  induction s as [|c s IH]; cbn; [by repeat constructor|]. intros [Hc Hs].
  specialize (IH Hs). destruct (Ascii.eqb c sep); [by constructor|].
  destruct (split sep s) as [|first rest]; [by repeat constructor|].
  apply Forall_cons in IH as [? ?]. by repeat constructor.
Qed.

Lemma all_chars_join P sep l :
  all_chars P sep → Forall (all_chars P) l → all_chars P (join sep l).
Proof.
  intros Hsep. induction 1 as [|x l Hx Hl IH]; [done|]. cbn [join].
  destruct l as [|y l]; [done|]. rewrite !all_chars_app. by repeat split.
Qed.

Lemma all_chars_collapse P rounds text :
  P LF → all_chars P text → all_chars P (collapse_blank_lines rounds text).
Proof.
  intros HLF. revert text. induction rounds as [|rounds IH]; intros text Htext; [done|].
  cbn [collapse_blank_lines]. destruct (str_contains _ _); [|done].
  apply IH. by apply all_chars_replace_from.
Qed.

(** *** The loop ends *)

Lemma prefix_length (a b : string) :
  String.prefix a b = true → (String.length a ≤ String.length b)%nat.
Proof. intros (v & ->)%prefix_app. rewrite SpellCheckFacts.length_app. lia. Qed.

Lemma length_replace_from (old new s : string) (skip : nat) :
  (String.length new ≤ String.length old)%nat →
  (String.length (replace_from old new skip s) + Nat.min skip (String.length s)
   ≤ String.length s)%nat.
Proof.
  intros Hlen. revert skip. induction s as [|c s IH]; intros skip; [cbn; lia|].
  cbn [replace_from String.length]. destruct skip as [|skip].
  - destruct (String.prefix old (String c s)) eqn:Hpre.
    + apply prefix_length in Hpre. cbn [String.length] in Hpre.
      specialize (IH (String.length old - 1)%nat).
      rewrite SpellCheckFacts.length_app. lia.
    + specialize (IH 0%nat). cbn [String.length]. lia.
  - specialize (IH skip). lia.
Qed.

(** A replacement by something shorter shortens a text that holds [old]. *)
Lemma length_replace_lt (old new s : string) :
  (String.length new < String.length old)%nat →
  str_contains old s = true →
  (String.length (replace old new s) < String.length s)%nat.
Proof.
  intros Hlen. unfold replace. induction s as [|c s IH]; cbn [str_contains].
  - rewrite orb_false_r. intros Hpre%prefix_length. cbn in Hpre. lia.
  - cbn [replace_from String.length].
    destruct (String.prefix old (String c s)) eqn:Hpre.
    + intros _. apply prefix_length in Hpre. cbn [String.length] in Hpre.
      pose proof (length_replace_from old new s (String.length old - 1) ltac:(lia)).
      rewrite SpellCheckFacts.length_app. lia.
    + cbn [orb]. intros Hs%IH. cbn [String.length]. lia.
Qed.

Lemma collapse_blank_lines_done (rounds : nat) (text : string) :
  (String.length text ≤ rounds)%nat →
  str_contains blank_lines_3 (collapse_blank_lines rounds text) = false.
Proof.
  revert text. induction rounds as [|rounds IH]; intros text Hlen.
  - destruct text; [done | cbn in Hlen; lia].
  - cbn [collapse_blank_lines].
    destruct (str_contains blank_lines_3 text) eqn:Hcontains; [|done].
    apply IH.
    pose proof (length_replace_lt blank_lines_3 blank_lines_2 text ltac:(cbn; lia) Hcontains).
    lia.
Qed.

Lemma rstrip_spaces (s : string) :
  all_chars (λ c, is_space c = true) s → rstrip s = EmptyString.
Proof.
  induction s as [|c s IH]; cbn; [done|]. intros [-> Hs]. by rewrite IH.
Qed.

(** X22: the sanitized input holds no carriage return and never three line
    feeds in a row (so at most one blank line between two lines): the loop
    that removes the blank lines ends by its own condition.  An input of
    white space only is sanitized to the empty string. *)
Theorem sanitized_input (text : string) :
  all_chars (λ c, c ≠ CR) (validate_and_sanitize_input text)
  ∧ (∀ u v, validate_and_sanitize_input text ≠ u +:+ blank_lines_3 +:+ v)
  ∧ (all_chars (λ c, is_space c = true) text → validate_and_sanitize_input text = EmptyString).
Proof.
  split; [|split].
  - unfold validate_and_sanitize_input. apply all_chars_collapse; [done|].
    apply all_chars_join; [done|]. apply Forall_fmap, Forall_forall.
    intros line Hline. apply all_chars_strip.
    eapply Forall_forall; [|exact Hline]. apply all_chars_split.
    by apply replace_char_gone.
  - intros u v Heq.
    assert (str_contains blank_lines_3 (validate_and_sanitize_input text) = true) as Hc
      by (apply str_contains_spec; eauto).
    unfold validate_and_sanitize_input in Hc.
    by rewrite collapse_blank_lines_done in Hc.
  - intros Hspace. unfold validate_and_sanitize_input, strip.
    by rewrite (rstrip_spaces text Hspace).
Qed.

(** *** The row of an entry in the history list *)

Lemma all_chars_str_take P (n : nat) (s : string) :
  all_chars P s → all_chars P (str_take n s).
Proof.
  revert s. induction n as [|n IH]; intros [|c s]; cbn; try done.
  intros [? ?]. split; [done | by apply IH].
Qed.

(** X23: the text [get_display_text] gives for an entry is the time between
    brackets, [Unknown] when the timestamp cannot be parsed, followed by the
    user input on one line: no line feed is left in it, and for a
    [max_length] that is not negative it has at most [max_length + 3]
    characters. *)
Theorem display_text_row `{Calendar} (e : PromptHistoryEntry) (max_length : Z) :
  ∃ time body,
    PromptHistoryEntry.get_display_text e max_length = "[" +:+ time +:+ "] " +:+ body
    ∧ time = default "Unknown" (short_time (timestamp e))
    ∧ all_chars (λ c, c ≠ LF) body
    ∧ (0 ≤ max_length → Z.of_nat (String.length body) ≤ max_length + 3).
Proof.
  unfold PromptHistoryEntry.get_display_text.
  set (text := strip (replace (String LF EmptyString) " " (user_input e))).
  assert (all_chars (λ c, c ≠ LF) text) as Htext.
  { apply all_chars_strip, replace_char_gone. by cbn. }
  eexists _, _. split; [reflexivity|]. split; [done|].
  destruct (Z.gtb_spec (Z.of_nat (String.length text)) max_length) as [Hlong|Hshort].
  - split.
    + apply all_chars_app. split; [by apply all_chars_str_take | by cbn].
    + intros Hmax. unfold str_slice_to.
      rewrite SpellCheckFacts.length_app, slice_index_nonneg, length_str_take by done.
      cbn [String.length]. lia.
  - split; [done | lia].
Qed.

End TextFacts.
